(** * DSMR.ino: telegram relay, day-usage aggregation and dial mapping

    A shallow embedding of the value-level core of the sketch [DSMR.ino]
    (the TCP mirror of the telegram with its recomputed CRC, the daily
    usage counter, the power dial and the main loop that drives them)
    together with the properties stated about it.

    Conventions.
    - An Arduino [String] is a [string]: a finite sequence of 8-bit
      characters.
    - [uint16_t] and [uint8_t] are integers of [Z] reduced modulo
      [2^16] and [2^8] where the C++ code converts to them.
    - [float] is IEEE 754 binary32, round to nearest even, as given by
      [SpecFloat] at precision 24 and maximal exponent 128.
    - A conversion whose behaviour C++ leaves undefined yields [None].
    - A text written past the end of its buffer is [None]: the source
      does not determine it. *)

From Stdlib Require Import ZArith List String Ascii Bool Lia.
From Stdlib Require Import Floats.SpecFloat.
From Stdlib Require Import Reals Lra.
Import ListNotations.

Local Open Scope string_scope.
Local Open Scope Z_scope.

(** ** Binary32 arithmetic *)

Module B32.

Definition prec : Z := 24.
Definition emax : Z := 128.

Definition float : Type := spec_float.

Definition add : float -> float -> float := SFadd prec emax.
Definition sub : float -> float -> float := SFsub prec emax.
Definition mul : float -> float -> float := SFmul prec emax.
Definition div : float -> float -> float := SFdiv prec emax.
Definition leb : float -> float -> bool := SFleb.
Definition ltb : float -> float -> bool := SFltb.
Definition geb (x y : float) : bool := SFleb y x.
Definition fabs : float -> float := SFabs.

(** Conversion of an integer to [float] (C++ integral to floating
    conversion, rounding to nearest even). *)
Definition of_Z (z : Z) : float := binary_normalize prec emax z 0 false.

(** The binary32 number nearest to the fraction [n / d]; used to write
    decimal constants such as [6.5] in examples. *)
Definition of_ratio (n d : Z) : float := div (of_Z n) (of_Z d).

(** The floats a variable of type [float] can hold. *)
Definition is_float (x : float) : bool := valid_binary prec emax x.

Definition is_finite (x : float) : bool :=
  match x with
  | S754_zero _ | S754_finite _ _ _ => true
  | _ => false
  end.

(** Truncation toward zero of a finite float to an integer. *)
Definition trunc (x : float) : option Z :=
  match x with
  | S754_zero _ => Some 0
  | S754_finite s m e =>
      let a := match e with
               | Zneg p => Z.shiftr (Zpos m) (Zpos p)
               | _ => Z.shiftl (Zpos m) e
               end in
      Some (if s then - a else a)
  | _ => None
  end.

(** Conversion of a [float] to [int16_t]: the fractional part is
    discarded; the behaviour is undefined when the truncated value is
    not representable. *)
Definition to_int16 (x : float) : option Z :=
  match trunc x with
  | Some z => if (-32768 <=? z) && (z <=? 32767) then Some z else None
  | None => None
  end.

(** [round] of the C library on [float]: nearest integer, halfway cases
    away from zero. *)
Definition round (x : float) : float :=
  match x with
  | S754_finite s m (Zneg p) =>
      let n := Z.shiftr (Zpos m + Z.shiftl 1 (Zpos p - 1)) (Zpos p) in
      binary_normalize prec emax (if s then - n else n) 0 s
  | _ => x
  end.

End B32.

Abbreviation float := B32.float.

(** ** Characters and strings *)

Definition byte_val (c : ascii) : Z := Z.of_N (N_of_ascii c).

Definition char_of (z : Z) : ascii := ascii_of_N (Z.to_N (z mod 256)).

(** [String::substring(left, right)] of the Arduino core: the bounds are
    swapped when out of order, an empty string is returned when [left] is
    past the end, and [right] is clipped to the length. *)
Fixpoint string_take (n : nat) (s : string) : string :=
  match n, s with
  | S k, String c r => String c (string_take k r)
  | _, _ => EmptyString
  end.

Fixpoint string_drop (n : nat) (s : string) : string :=
  match n, s with
  | S k, String _ r => string_drop k r
  | _, _ => s
  end.

Definition substring (left right : nat) (s : string) : string :=
  let l := Nat.min left right in
  let r := Nat.max left right in
  if Nat.leb (String.length s) l then EmptyString
  else string_take (Nat.min r (String.length s) - l) (string_drop l s).

(** [String::equals]. *)
Definition equals (a b : string) : bool := String.eqb a b.

(** The digits of a non-negative integer in a base up to sixteen, most
    significant first, letters in upper case. *)
Definition digit_char (d : Z) : ascii :=
  if d <? 10 then char_of (48 + d) else char_of (55 + d).

Fixpoint digits_acc (base : Z) (fuel : nat) (n : Z) (acc : string) : string :=
  match fuel with
  | O => acc
  | S k =>
      let acc' := String (digit_char (n mod base)) acc in
      if n / base =? 0 then acc' else digits_acc base k (n / base) acc'
  end.

Definition digits (base n : Z) : string :=
  digits_acc base (S (Z.to_nat (Z.log2 n))) n EmptyString.

Fixpoint pad_left (c : ascii) (k : nat) (s : string) : string :=
  match k with
  | O => s
  | S j => String c (pad_left c j s)
  end.

(** ** CRC-16 *)

Module Crc.

(** Modelled from the spec: [_crc16_update] comes from the included
    headers and is not part of the sketch; the spec names it the
    standard CRC-16 with the reflected polynomial 0xA001.  One byte is
    folded in by xor-ing it into the low byte and shifting eight times,
    xor-ing the polynomial in whenever a one is shifted out. *)
Definition crc_shift (crc : Z) : Z :=
  if Z.testbit crc 0 then Z.lxor (Z.shiftr crc 1) 0xA001
  else Z.shiftr crc 1.

Definition _crc16_update (crc a : Z) : Z :=
  let crc := Z.lxor (crc mod 65536) (a mod 256) in
  crc_shift (crc_shift (crc_shift (crc_shift
    (crc_shift (crc_shift (crc_shift (crc_shift crc))))))).





(** [sprintf(.., "%04X", n)] for an unsigned [n]: upper-case hexadecimal
    digits, padded with zeros on the left to at least four. *)
Definition sprintf_04X (n : Z) : string :=
  let d := digits 16 n in
  pad_left "0" (4 - String.length d) d.

End Crc.

(** ** Number formatting *)

(** [dtostrf(val, width, prec, s)] of the Arduino core, from its
    documentation: the value in the format [-]d.ddd with [prec] digits
    after the decimal point, right-justified with blanks in a field of at
    least [width] characters.  The decimal digits are those of the exact
    binary value rounded to [prec] places, halfway cases away from zero. *)
Definition scaled_round (m : positive) (e : Z) (prec : nat) : Z :=
  let n := Zpos m * 10 ^ Z.of_nat prec in
  match e with
  | Zneg p => Z.shiftr (n + Z.shiftl 1 (Zpos p - 1)) (Zpos p)
  | _ => Z.shiftl n e
  end.

Definition fixed_point (d : Z) (prec : nat) : string :=
  let ip := digits 10 (d / 10 ^ Z.of_nat prec) in
  match prec with
  | O => ip
  | _ =>
      let fp := digits 10 (d mod 10 ^ Z.of_nat prec) in
      ip ++ "." ++ pad_left "0" (prec - String.length fp) fp
  end.

Definition dtostrf (val : float) (width : Z) (prec : nat) : string :=
  match val with
  | S754_nan => "nan"
  | S754_infinity _ => "inf"
  | S754_zero _ =>
      let t := fixed_point 0 prec in
      pad_left " " (Z.to_nat width - String.length t) t
  | S754_finite s m e =>
      let t := fixed_point (scaled_round m e prec) prec in
      let t := if s then "-" ++ t else t in
      pad_left " " (Z.to_nat width - String.length t) t
  end.

(** ** The sketch *)

Definition MAX_POWER_CONSUMPTION : Z := 18.
Definition MAX_POWER_RETURN : Z := 6.

Inductive color : Type := TFT_GREEN | TFT_RED.

(** The TCP client slot: whether a peer is connected, and the bytes
    written to it so far. *)
Record WiFiClient : Type := {
  connected : bool;
  sent : string
}.

Definition print (s : string) (c : WiFiClient) : WiFiClient :=
  {| connected := connected c; sent := sent c ++ s |}.

Definition write (b : Z) (c : WiFiClient) : WiFiClient :=
  print (String (char_of b) EmptyString) c.

(** The global variables. *)
Record globals : Type := {
  lastBuf : string;
  dialAngle : Z;
  currentUsage : float;
  currentUsageStr : option string;
  currentColor : color;
  lastTimestamp : string;
  dayUsage : float;
  lastDelivered : float;
  lastReturned : float;
  dayUsageStr : option string;
  RemoteClient : WiFiClient
}.

Definition initial (c : WiFiClient) : globals := {|
  lastBuf := "";
  dialAngle := -45;
  currentUsage := B32.of_Z 0;
  currentUsageStr := Some "0kW";
  currentColor := TFT_GREEN;
  lastTimestamp := "";
  dayUsage := B32.of_Z 0;
  lastDelivered := B32.of_Z (-1);
  lastReturned := B32.of_Z (-1);
  dayUsageStr := Some "0kW";
  RemoteClient := c
|}.

Definition set_RemoteClient (c : WiFiClient) (g : globals) : globals := {|
  lastBuf := lastBuf g;
  dialAngle := dialAngle g;
  currentUsage := currentUsage g;
  currentUsageStr := currentUsageStr g;
  currentColor := currentColor g;
  lastTimestamp := lastTimestamp g;
  dayUsage := dayUsage g;
  lastDelivered := lastDelivered g;
  lastReturned := lastReturned g;
  dayUsageStr := dayUsageStr g;
  RemoteClient := c
|}.

(** *** TCP mirror *)

Definition calculateCrc16 (buf : string) : string :=
  let crcCalc := Crc._crc16_update 0 (byte_val "/") in
  let crcCalc :=
    fold_left (fun crc c => Crc._crc16_update crc (byte_val c))
      (list_ascii_of_string buf) crcCalc in
  let crcCalc := Crc._crc16_update crcCalc (byte_val "!") in
  Crc.sprintf_04X crcCalc.

Definition CRLF : string := String "013" (String "010" EmptyString).

Definition sendTelegram (buf : string) (g : globals) : globals :=
  if connected (RemoteClient g) then
    let crc := calculateCrc16 buf in
    let c := RemoteClient g in
    let c := print "/" c in
    let c := print buf c in
    let c := print "!" c in
    let c := print crc c in
    let c := print CRLF c in
    let nullString := 0 in
    let c := write nullString c in
    set_RemoteClient c g
  else g.

(** *** Value updaters *)

(** The expression assigned to [dialAngle], before its conversion to
    [int16_t]. *)
Definition dial_expr (currentValue : float) : float :=
  B32.add (B32.of_Z (-90))
    (B32.mul
       (B32.div (B32.add currentValue (B32.of_Z MAX_POWER_RETURN))
                (B32.of_Z (MAX_POWER_RETURN + MAX_POWER_CONSUMPTION)))
       (B32.of_Z 180)).

Definition dial_angle (currentValue : float) : option Z :=
  B32.to_int16 (dial_expr currentValue).

Definition dial_color (currentValue : float) : color :=
  if B32.ltb currentValue (B32.of_Z 0) then TFT_GREEN else TFT_RED.

(** [char outstr[4]] after [dtostrf] has written a text into it: the
    characters and a terminating NUL.  A text of more than 3 characters
    is written past the end of the array, which C++ leaves undefined: no
    text is determined then. *)
Definition outstr (t : string) : option string :=
  if Nat.leb (String.length t) 3 then Some t else None.

Definition dial_text (currentValue : float) : option string :=
  match
    outstr
      (dtostrf
         (B32.fabs (B32.div (B32.round (B32.mul currentValue (B32.of_Z 10)))
                            (B32.of_Z 10)))
         (if B32.geb currentValue (B32.of_Z 10) then 4 else 3) 1)
  with
  | Some convstr => Some (convstr ++ "kW")
  | None => None
  end.

Definition setCurrentValue (currentValue : float) (g : globals)
  : option globals :=
  match dial_angle currentValue with
  | None => None
  | Some a => Some {|
      lastBuf := lastBuf g;
      dialAngle := a;
      currentUsage := currentValue;
      currentUsageStr := dial_text currentValue;
      currentColor := dial_color currentValue;
      lastTimestamp := lastTimestamp g;
      dayUsage := dayUsage g;
      lastDelivered := lastDelivered g;
      lastReturned := lastReturned g;
      dayUsageStr := dayUsageStr g;
      RemoteClient := RemoteClient g
    |}
  end.

Definition day_text (dayUsage : float) : option string :=
  match
    outstr
      (dtostrf
         (B32.div (B32.round (B32.mul dayUsage (B32.of_Z 10))) (B32.of_Z 10))
         (if B32.geb (B32.fabs dayUsage) (B32.of_Z 10) then 4 else 3) 1)
  with
  | Some convstr => Some (convstr ++ "kW")
  | None => None
  end.

Definition updateUsage (timestamp : string) (del1 del2 ret1 ret2 : float)
  (g : globals) : globals :=
  (* Check if we're in a new day *)
  let currentTimestamp := substring 0 6 timestamp in
  let new_day := negb (equals (lastTimestamp g) currentTimestamp) in
  let lastTimestamp' := if new_day then currentTimestamp else lastTimestamp g in
  let dayUsage0 := if new_day then B32.of_Z 0 else dayUsage g in
  (* Calculate current day usage *)
  let counted := B32.geb (lastDelivered g) (B32.of_Z 0) in
  let dayUsage' :=
    if counted then
      B32.add dayUsage0
        (B32.sub (B32.sub (B32.add del1 del2) (lastDelivered g))
                 (B32.sub (B32.add ret1 ret2) (lastReturned g)))
    else dayUsage0 in
  let dayUsageStr' := if counted then day_text dayUsage' else dayUsageStr g in
  (* Update internal counter *)
  {| lastBuf := lastBuf g;
     dialAngle := dialAngle g;
     currentUsage := currentUsage g;
     currentUsageStr := currentUsageStr g;
     currentColor := currentColor g;
     lastTimestamp := lastTimestamp';
     dayUsage := dayUsage';
     lastDelivered := B32.add del1 del2;
     lastReturned := B32.add ret1 ret2;
     dayUsageStr := dayUsageStr';
     RemoteClient := RemoteClient g |}.

(** ** The statements' vocabulary *)




(** The value [-1] both baselines start from. *)
Definition sentinel : float := B32.of_Z (-1).

(** What [loop] passes as a register: [FixedValue::val()], an unsigned
    count of thousandths divided by 1000, hence a finite float that is
    not negative. *)
Definition register_value (x : float) : bool :=
  B32.is_float x &&
  match x with
  | S754_zero false | S754_finite false _ _ => true
  | _ => false
  end.

(** One call of [updateUsage] and a sequence of them. *)
Record call : Type := {
  timestamp : string;
  del1 : float;
  del2 : float;
  ret1 : float;
  ret2 : float
}.

Definition from_meter (c : call) : bool :=
  register_value (del1 c) && register_value (del2 c) &&
  register_value (ret1 c) && register_value (ret2 c).

Definition update_call (g : globals) (c : call) : globals :=
  updateUsage (timestamp c) (del1 c) (del2 c) (ret1 c) (ret2 c) g.

Definition run (calls : list call) (g : globals) : globals :=
  fold_left update_call calls g.

(** The change of the net register sums since the last call. *)
Definition delta (del1 del2 ret1 ret2 : float) (g : globals) : float :=
  B32.sub (B32.sub (B32.add del1 del2) (lastDelivered g))
          (B32.sub (B32.add ret1 ret2) (lastReturned g)).

(** The value both texts are made from: [round(v * 10) / 10]. *)
Definition round_tenths (v : float) : float :=
  B32.div (B32.round (B32.mul v (B32.of_Z 10))) (B32.of_Z 10).

(** The claim's rendering of a finite power: the magnitude, rounded once
    to one decimal place, halfway cases away from zero (as a number of
    tenths), in fixed point with one fractional digit, in a field of 4
    characters when the rounded magnitude reaches 10 and of 3 otherwise,
    then the unit. *)
Definition text_spec (netPower : float) : string :=
  let k := match netPower with
           | S754_finite _ m e => scaled_round m e 1
           | _ => 0
           end in
  let width := if 100 <=? k then 4%nat else 3%nat in
  let t := fixed_point k 1 in
  pad_left " " (width - String.length t) t ++ "kW".

(** The integer nearest to a float, halfway cases away from zero. *)
Definition nearest_away (y : float) : Z :=
  match y with
  | S754_finite s m e =>
      let n := match e with
               | Zneg p => Z.shiftr (Zpos m + Z.shiftl 1 (Zpos p - 1)) (Zpos p)
               | _ => Z.shiftl (Zpos m) e
               end in
      if s then - n else n
  | _ => 0
  end.

(** The number of tenths the code makes of a value: the product with
    10, which is a binary32 number, rounded to the nearest integer. *)
Definition tenths (v : float) : Z := nearest_away (B32.mul v (B32.of_Z 10)).

(** Inputs used in the examples. *)
Definition somebody : WiFiClient := {| connected := true; sent := "" |}.

Definition nobody : WiFiClient := {| connected := false; sent := "" |}.

Definition call_a : call :=
  {| timestamp := "200101120000W";
     del1 := B32.of_Z 5; del2 := B32.of_Z 0;
     ret1 := B32.of_Z 0; ret2 := B32.of_Z 0 |}.

Definition call_b : call :=
  {| timestamp := "200102120000W";
     del1 := B32.of_ratio 65 10; del2 := B32.of_Z 0;
     ret1 := B32.of_ratio 5 10; ret2 := B32.of_Z 0 |}.

Definition call_short : call :=
  {| timestamp := "2001";
     del1 := B32.of_ratio 65 10; del2 := B32.of_Z 0;
     ret1 := B32.of_ratio 5 10; ret2 := B32.of_Z 0 |}.


(** What a rounding with sign [s] can return. *)
Definition signed (s : bool) (x : spec_float) : Prop :=
  match x with
  | S754_zero s' | S754_infinity s' | S754_finite s' _ _ => s' = s
  | S754_nan => False
  end.

(** The values the meter registers take: finite and not negative. *)
Definition nonneg (x : spec_float) : Prop :=
  match x with
  | S754_zero _ | S754_finite false _ _ | S754_infinity false => True
  | _ => False
  end.

(** Both baselines still hold the start value, or both hold a sum of
    registers. *)
Definition baseline_inv (g : globals) : Prop :=
  (lastDelivered g = sentinel /\ lastReturned g = sentinel) \/
  (nonneg (lastDelivered g) /\ nonneg (lastReturned g)).

(** ** The screen and the main loop *)

(** The x position [drawScreen] gives the cursor before it prints the
    current usage. *)
Definition drawScreen_cursor_x (g : globals) : option Z :=
  match currentUsageStr g with
  | Some s => Some (if Nat.eqb (String.length s) 5 then 85 else 77)
  | None => None
  end.

(** The largest float, 10433330 * 2^-20 = 9.94999886..., that the dial
    shows with one digit before the point. *)
Definition one_digit_max : float := S754_finite false 10433330 (-20).

(** The float -0.05: the first negative day total, going down, whose
    text has a sign. *)
Definition minus_half_tenth : float := S754_finite true 13421773 (-28).

(** The float 10. *)
Definition c10 : float := S754_finite false 10485760 (-20).




(** The fields of a parsed telegram that [loop] reads. *)
Module MyData.
Record t : Type := {
  timestamp : string;
  energy_delivered_tariff1 : float;
  energy_delivered_tariff2 : float;
  energy_returned_tariff1 : float;
  energy_returned_tariff2 : float;
  power_delivered : float;
  power_returned : float
}.
End MyData.

(** What one pass of [loop] finds: a peer waiting at the server, if any,
    and a telegram the reader has completed, if any, as its raw text and
    the outcome of parsing it. *)
Record pass : Type := {
  waiting : option WiFiClient;
  telegram : option (string * option MyData.t)
}.

(** The assignment [lastBuf = reader.raw()]. *)
Definition set_lastBuf (s : string) (g : globals) : globals := {|
  lastBuf := s;
  dialAngle := dialAngle g;
  currentUsage := currentUsage g;
  currentUsageStr := currentUsageStr g;
  currentColor := currentColor g;
  lastTimestamp := lastTimestamp g;
  dayUsage := dayUsage g;
  lastDelivered := lastDelivered g;
  lastReturned := lastReturned g;
  dayUsageStr := dayUsageStr g;
  RemoteClient := RemoteClient g
|}.

(** A waiting peer takes the client slot; the client that held it is
    stopped and gone. *)
Definition checkForConnections (waiting : option WiFiClient) (g : globals)
  : globals :=
  match waiting with
  | Some c => set_RemoteClient c g
  | None => g
  end.

(** One pass of [loop].  The reader belongs to the dsmr library: what
    it delivers is the pass's telegram.  [http.handleClient] is left
    out, its handlers read the globals and assign none; so is
    [drawScreen], which draws from the globals and assigns none. *)
Definition loop (p : pass) (g : globals) : option globals :=
  (* Check for TCP socket connections *)
  let g := checkForConnections (waiting p) g in
  (* If there's a new telegram, parse it *)
  match telegram p with
  | Some (raw, parsed) =>
      let g := set_lastBuf raw g in
      match parsed with
      | Some data =>
          (* Send data to Domoticz *)
          let g := sendTelegram (lastBuf g) g in
          (* Update daily usage *)
          let g :=
            updateUsage
              (MyData.timestamp data)
              (MyData.energy_delivered_tariff1 data)
              (MyData.energy_delivered_tariff2 data)
              (MyData.energy_returned_tariff1 data)
              (MyData.energy_returned_tariff2 data) g in
          (* Update current usage *)
          setCurrentValue
            (B32.sub (MyData.power_delivered data) (MyData.power_returned data))
            g
      | None => Some g
      end
  | None => Some g
  end.

(** Passes of [loop] one after the other. *)
Fixpoint loops (ps : list pass) (g : globals) : option globals :=
  match ps with
  | [] => Some g
  | p :: r =>
      match loop p g with
      | Some g' => loops r g'
      | None => None
      end
  end.


(** The call of [updateUsage] that [loop] makes for a parsed telegram. *)
Definition call_of (d : MyData.t) : call := {|
  timestamp := MyData.timestamp d;
  del1 := MyData.energy_delivered_tariff1 d;
  del2 := MyData.energy_delivered_tariff2 d;
  ret1 := MyData.energy_returned_tariff1 d;
  ret2 := MyData.energy_returned_tariff2 d
|}.

Definition calls_of (ps : list pass) : list call :=
  flat_map (fun p => match telegram p with
                     | Some (_, Some d) => [call_of d]
                     | _ => []
                     end) ps.

(** Two states that agree on the day accounting. *)
Definition same_usage (g h : globals) : Prop :=
  lastTimestamp g = lastTimestamp h /\
  dayUsage g = dayUsage h /\
  lastDelivered g = lastDelivered h /\
  lastReturned g = lastReturned h /\
  dayUsageStr g = dayUsageStr h.

(** Inputs used in the examples. *)
Definition data_a : MyData.t := {|
  MyData.timestamp := "200101120000W";
  MyData.energy_delivered_tariff1 := B32.of_Z 5;
  MyData.energy_delivered_tariff2 := B32.of_Z 0;
  MyData.energy_returned_tariff1 := B32.of_Z 0;
  MyData.energy_returned_tariff2 := B32.of_Z 0;
  MyData.power_delivered := B32.of_ratio 3 2;
  MyData.power_returned := B32.of_Z 0
|}.

Definition data_b : MyData.t := {|
  MyData.timestamp := "200102120000W";
  MyData.energy_delivered_tariff1 := B32.of_ratio 65 10;
  MyData.energy_delivered_tariff2 := B32.of_Z 0;
  MyData.energy_returned_tariff1 := B32.of_ratio 5 10;
  MyData.energy_returned_tariff2 := B32.of_Z 0;
  MyData.power_delivered := B32.of_Z 0;
  MyData.power_returned := B32.of_ratio 1 4
|}.

Definition passes_ab : list pass :=
  [ {| waiting := None; telegram := Some ("a", Some data_a) |};
    {| waiting := None; telegram := None |};
    {| waiting := None; telegram := Some ("x", None) |};
    {| waiting := None; telegram := Some ("b", Some data_b) |} ].

(** A parsed telegram whose two powers are meter values of at most 4363
    kW each. *)
Definition power_in_range (d : MyData.t) : bool :=
  register_value (MyData.power_delivered d) &&
  register_value (MyData.power_returned d) &&
  B32.leb (MyData.power_delivered d) (B32.of_Z 4363) &&
  B32.leb (MyData.power_returned d) (B32.of_Z 4363).

(** ** Floats as real numbers *)

Module FloatReal.
Local Open Scope R_scope.

(** *** Powers of two *)

Definition bpow (e : Z) : R := powerRZ 2 e.

(** *** Integers nearest to a real, ties to even *)

Definition rne (x : R) (n : Z) : Prop :=
  IZR n - / 2 <= x <= IZR n + / 2 /\
  (x = IZR n - / 2 \/ x = IZR n + / 2 -> Z.even n = true).

(** [loc_at m l x]: the real [x] lies in the unit interval starting at
    the integer [m], at the place the location [l] names. *)
Definition loc_at (m : Z) (l : location) (x : R) : Prop :=
  match l with
  | loc_Exact => x = IZR m
  | loc_Inexact Lt => IZR m < x < IZR m + / 2
  | loc_Inexact Eq => x = IZR m + / 2
  | loc_Inexact Gt => IZR m + / 2 < x < IZR m + 1
  end.

Definition sgn (s : bool) : R := if s then -1 else 1.

(** The real a float stands for; an infinity stands for the first power
    of two out of range. *)
Definition XV (x : spec_float) : R :=
  match x with
  | S754_zero _ => 0
  | S754_infinity s => sgn s * bpow 128
  | S754_nan => 0
  | S754_finite s m e => sgn s * (IZR (Z.pos m) * bpow e)
  end.

(** A float that is not a NaN. *)
Definition ok (x : spec_float) : Prop :=
  valid_binary B32.prec B32.emax x = true /\ x <> S754_nan.

(** The exponent binary32 gives to a non-negative real [r]: that of
    its binade, and the least one for the subnormal range. *)
Definition good_exp (r : R) (t : Z) : Prop :=
  ((t = -149)%Z /\ r < bpow (-125)) \/
  ((-149 <= t)%Z /\ bpow (t + 23) <= r < bpow (t + 24)).

(** [Rounds r w]: [w] is the non-negative real [r] rounded to binary32,
    to nearest with ties to even, overflow giving [2^128]. *)
Definition Rounds (r w : R) : Prop :=
  0 <= r /\
  exists t n, good_exp r t /\ rne (r * bpow (- t)) n /\
              w = Rmin (IZR n * bpow t) (bpow 128).

(** Rounding of a real of either sign: the sign is kept and the
    magnitude rounded. *)
Definition SRounds (r v : R) : Prop :=
  exists s a w, 0 <= a /\ r = sgn s * a /\ v = sgn s * w /\ Rounds a w.

(** [trunc_of z v]: the integer [z] is the real [v] with its fractional
    part discarded. *)
Definition trunc_of (z : Z) (v : R) : Prop :=
  (0 <= v -> IZR z <= v < IZR z + 1) /\
  (v <= 0 -> IZR z - 1 < v <= IZR z).

(** The order of the reals on floats that are not NaN. *)
Definition ord (x y : spec_float) : Prop := ok x /\ ok y /\ XV x <= XV y.

(** [rounds_as f g]: on floats that are not NaN the operation [f]
    returns the rounding of the real function [g], and keeps an
    infinity. *)
Definition rounds_as (f : spec_float -> spec_float) (g : R -> R) : Prop :=
  forall x, ok x ->
    ok (f x) /\
    match x with
    | S754_infinity _ => XV (f x) = XV x
    | _ => SRounds (g (XV x)) (XV (f x))
    end.

End FloatReal.

Import FloatReal.

(** * Properties *)

(** ** Digit strings *)



(** ** Checksum *)

Module CrcFacts.
Import Crc.
















End CrcFacts.


(** ** Signs of rounded results *)

Module SignFacts.

Lemma iter_pos_invariant {A : Type} (f : A -> A) (P : A -> Prop) :
  (forall x, P x -> P (f x)) ->
  forall n x, P x -> P (SpecFloat.iter_pos f n x).
Proof.
  intros Hf. induction n as [n IH|n IH|]; intros x Hx; cbn; auto.
Qed.

Lemma shr_1_nonneg mrs : 0 <= shr_m mrs -> 0 <= shr_m (shr_1 mrs).
Proof.
  destruct mrs as [m r s]. cbn [shr_m]. intros Hm.
  destruct m as [|p|p]; [cbn; lia| |lia].
  destruct p; cbn; lia.
Qed.

Lemma shr_nonneg mrs e n :
  0 <= shr_m mrs -> 0 <= shr_m (fst (shr mrs e n)).
Proof.
  intros Hm. destruct n as [|p|p]; cbn; auto.
  apply iter_pos_invariant; auto using shr_1_nonneg.
Qed.

Lemma shr_record_of_loc_m m l : shr_m (shr_record_of_loc m l) = m.
Proof. destruct l as [|[]]; reflexivity. Qed.

Lemma shr_fexp_nonneg prec emax m e l :
  0 <= m -> 0 <= shr_m (fst (shr_fexp prec emax m e l)).
Proof.
  intros Hm. unfold shr_fexp. apply shr_nonneg.
  now rewrite shr_record_of_loc_m.
Qed.

Lemma round_nearest_even_nonneg m l : 0 <= m -> 0 <= round_nearest_even m l.
Proof.
  intros Hm. destruct l as [|[]]; cbn; try lia.
  destruct (Z.even m); lia.
Qed.

Lemma binary_round_aux_signed prec emax s m e l :
  0 <= m -> signed s (binary_round_aux prec emax s m e l).
Proof.
  intros Hm. unfold binary_round_aux.
  pose proof (shr_fexp_nonneg prec emax m e l Hm) as H1.
  destruct (shr_fexp prec emax m e l) as [mrs' e'].
  cbn [fst] in H1.
  pose proof (shr_fexp_nonneg prec emax
    (round_nearest_even (shr_m mrs') (loc_of_shr_record mrs')) e' loc_Exact
    (round_nearest_even_nonneg _ _ H1)) as H2.
  destruct (shr_fexp prec emax _ e' loc_Exact) as [mrs'' e''].
  cbn [fst] in H2.
  destruct (shr_m mrs'') as [|p|p]; cbn; [reflexivity| |lia].
  destruct (e'' <=? emax - prec); reflexivity.
Qed.

Lemma binary_round_signed prec emax s m e :
  signed s (binary_round prec emax s m e).
Proof.
  unfold binary_round.
  destruct (shl_align m e _) as [mz ez].
  apply binary_round_aux_signed. lia.
Qed.

Lemma add_nonneg x y :
  nonneg x -> nonneg y -> nonneg (B32.add x y).
Proof.
  unfold B32.add.
  destruct x as [sx|[|]| |[|] mx ex]; destruct y as [sy|[|]| |[|] my ey];
    cbn [nonneg]; try tauto; intros _ _.
  - cbn. destruct sx, sy; exact I.
  - cbn [SFadd cond_Zopp].
    match goal with |- nonneg (binary_normalize _ _ ?z _ _) =>
      assert (0 < z) as Hz by lia; destruct z as [|p|p]; try lia end.
    cbn [binary_normalize].
    pose proof (binary_round_signed B32.prec B32.emax false p (Z.min ex ey)) as H.
    destruct (binary_round _ _ _ _ _) as [s|s| |s m e]; cbn in H |- *;
      subst; tauto.
Qed.

Lemma nonneg_geb x : nonneg x -> B32.geb x (B32.of_Z 0) = true.
Proof.
  destruct x as [s|[|]| |[|] m e]; cbn; tauto.
Qed.

Lemma nonneg_not_minus_one x : nonneg x -> x <> B32.of_Z (-1).
Proof.
  intros H E. subst x. vm_compute in H. exact H.
Qed.

End SignFacts.

(** ** Daily usage *)

Module UsageFacts.
Import SignFacts.

Lemma register_value_nonneg x : register_value x = true -> nonneg x.
Proof.
  unfold register_value. intros H. apply andb_true_iff in H as [_ H].
  destruct x as [[|]|[|]| |[|] m e]; cbn in *; try discriminate; exact I.
Qed.

Lemma baseline_inv_initial c : baseline_inv (initial c).
Proof. left. split; reflexivity. Qed.

Lemma baseline_inv_update g c :
  from_meter c = true -> baseline_inv (update_call g c).
Proof.
  unfold from_meter. intros H.
  apply andb_true_iff in H as [H H4].
  apply andb_true_iff in H as [H H3].
  apply andb_true_iff in H as [H1 H2].
  right. cbn [update_call updateUsage lastDelivered lastReturned].
  split; apply add_nonneg; auto using register_value_nonneg.
Qed.

Lemma baseline_inv_run calls :
  forall g, forallb from_meter calls = true ->
            baseline_inv g -> baseline_inv (run calls g).
Proof.
  induction calls as [|c calls IH]; intros g Hc Hg; [exact Hg|].
  cbn in Hc. apply andb_true_iff in Hc as [Hc Hcs].
  cbn [run fold_left]. apply IH; [exact Hcs|].
  now apply baseline_inv_update.
Qed.

Lemma substring_short ts :
  (String.length ts < 6)%nat -> substring 0 6 ts = ts.
Proof.
  intros H. unfold substring. cbn [Nat.min Nat.max].
  do 6 (destruct ts as [|? ts]; [reflexivity|]).
  cbn in H. lia.
Qed.

End UsageFacts.

(** ** Rounding in binary32 *)

Module Rounding.
Local Open Scope R_scope.

Lemma bpow_pos e : 0 < bpow e.
Proof. apply powerRZ_lt. lra. Qed.

Lemma bpow_add a b : bpow (a + b) = bpow a * bpow b.
Proof. apply powerRZ_add. lra. Qed.

Lemma bpow_0 : bpow 0 = 1.
Proof. reflexivity. Qed.

Lemma bpow_1 : bpow 1 = 2.
Proof. exact (powerRZ_1 2). Qed.

Lemma bpow_succ a : bpow (a + 1) = 2 * bpow a.
Proof. rewrite bpow_add, bpow_1. lra. Qed.

Lemma bpow_opp a : bpow (- a) = / bpow a.
Proof. apply powerRZ_neg'. Qed.

Lemma bpow_m1 : bpow (-1) = / 2.
Proof. change (-1)%Z with (- (1))%Z. now rewrite bpow_opp, bpow_1. Qed.

Lemma bpow_mul_opp a : bpow a * bpow (- a) = 1.
Proof. rewrite <- bpow_add, Z.add_opp_diag_r. reflexivity. Qed.

Lemma bpow_mul_opp' a : bpow (- a) * bpow a = 1.
Proof. rewrite Rmult_comm. apply bpow_mul_opp. Qed.

Lemma bpow_IZR e : (0 <= e)%Z -> bpow e = IZR (2 ^ e).
Proof.
  intros He. destruct e as [|p|p]; [reflexivity| |lia].
  unfold bpow. symmetry. apply (Zpower_pos_powerRZ 2 p).
Qed.

Lemma bpow_ge_1 e : (0 <= e)%Z -> 1 <= bpow e.
Proof.
  intros He. rewrite bpow_IZR by exact He. apply IZR_le.
  pose proof (Z.pow_pos_nonneg 2 e). lia.
Qed.

Lemma bpow_le a b : (a <= b)%Z -> bpow a <= bpow b.
Proof.
  intros H. replace b with (a + (b - a))%Z by lia. rewrite bpow_add.
  pose proof (bpow_pos a). pose proof (bpow_ge_1 (b - a) ltac:(lia)). nra.
Qed.

Lemma bpow_lt a b : (a < b)%Z -> bpow a < bpow b.
Proof.
  intros H. replace b with (a + 1 + (b - a - 1))%Z by lia.
  rewrite bpow_add, bpow_succ.
  pose proof (bpow_pos a). pose proof (bpow_ge_1 (b - a - 1) ltac:(lia)). nra.
Qed.

Lemma bpow_lt_inv a b : bpow a < bpow b -> (a < b)%Z.
Proof.
  intros H. destruct (Z.lt_ge_cases a b) as [|Hge]; [assumption|].
  apply bpow_le in Hge. lra.
Qed.

Lemma bpow_le_inv a b : bpow a <= bpow b -> (a <= b)%Z.
Proof.
  intros H. destruct (Z.le_gt_cases a b) as [|Hgt]; [assumption|].
  apply bpow_lt in Hgt. lra.
Qed.

Lemma IZR_lt_succ a b : IZR a < IZR b + 1 -> (a <= b)%Z.
Proof.
  intros H. rewrite <- succ_IZR in H. apply lt_IZR in H. lia.
Qed.

Lemma rne_le_int x n k : rne x n -> x <= IZR k -> (n <= k)%Z.
Proof.
  intros [[Hl _] _] Hx. apply IZR_lt_succ. lra.
Qed.

Lemma rne_ge_int x n k : rne x n -> IZR k <= x -> (k <= n)%Z.
Proof.
  intros [[_ Hu] _] Hx. apply IZR_lt_succ. lra.
Qed.

Lemma rne_mono x y n k : rne x n -> rne y k -> x <= y -> (n <= k)%Z.
Proof.
  intros [[Hl Hu] He] [[Hl' Hu'] He'] Hxy.
  destruct (Z.le_gt_cases n k) as [|Hgt]; [assumption|exfalso].
  assert (k + 1 <= n)%Z as H1 by lia. apply IZR_le in H1.
  rewrite plus_IZR in H1.
  assert (x = IZR n - / 2) as Ex by lra.
  assert (y = IZR k + / 2) as Ey by lra.
  assert (n = k + 1)%Z as En.
  { apply eq_IZR. rewrite plus_IZR. lra. }
  specialize (He (or_introl Ex)). specialize (He' (or_intror Ey)).
  subst n. rewrite Z.even_add in He. rewrite He' in He. discriminate.
Qed.

(** *** Locations *)

Lemma loc_at_bounds m l x : loc_at m l x -> IZR m <= x < IZR m + 1.
Proof. destruct l as [|[]]; cbn; lra. Qed.

Lemma loc_of_record_of_loc m l :
  loc_of_shr_record (shr_record_of_loc m l) = l.
Proof. destruct l as [|[]]; reflexivity. Qed.

Lemma shr_m_record_of_loc m l : shr_m (shr_record_of_loc m l) = m.
Proof. destruct l as [|[]]; reflexivity. Qed.

Lemma IZR_xO p : IZR (Z.pos p~0) = 2 * IZR (Z.pos p).
Proof. rewrite Pos2Z.inj_xO, mult_IZR. reflexivity. Qed.

Lemma IZR_xI p : IZR (Z.pos p~1) = 2 * IZR (Z.pos p) + 1.
Proof. rewrite Pos2Z.inj_xI, plus_IZR, mult_IZR. reflexivity. Qed.

Lemma shr_1_loc mrs x :
  (0 <= shr_m mrs)%Z ->
  loc_at (shr_m mrs) (loc_of_shr_record mrs) x ->
  (0 <= shr_m (shr_1 mrs))%Z /\
  loc_at (shr_m (shr_1 mrs)) (loc_of_shr_record (shr_1 mrs)) (x / 2).
Proof.
  destruct mrs as [m r s]. cbn [shr_m]. intros Hm H.
  destruct m as [|p|p]; [| |lia].
  - split; [cbn; lia|]. destruct r, s; cbn in *; lra.
  - destruct p as [p|p|]; (split; [cbn; lia|]);
      destruct r, s; cbn [shr_1 shr_m loc_of_shr_record orb loc_at] in *;
      rewrite ?(IZR_xO p), ?(IZR_xI p) in *; lra.
Qed.

Lemma iter_shr_loc n :
  forall mrs x,
    (0 <= shr_m mrs)%Z ->
    loc_at (shr_m mrs) (loc_of_shr_record mrs) x ->
    (0 <= shr_m (SpecFloat.iter_pos shr_1 n mrs))%Z /\
    loc_at (shr_m (SpecFloat.iter_pos shr_1 n mrs))
           (loc_of_shr_record (SpecFloat.iter_pos shr_1 n mrs))
           (x * bpow (- Z.pos n)).
Proof.
  assert (forall a b, - a + - b = - (a + b))%Z as Eopp by (intros; lia).
  induction n as [n IH|n IH|]; intros mrs x Hm H; cbn [SpecFloat.iter_pos].
  - destruct (shr_1_loc mrs x Hm H) as [H0 H1].
    destruct (IH _ _ H0 H1) as [H2 H3].
    destruct (IH _ _ H2 H3) as [H4 H5].
    split; [exact H4|].
    replace (x * bpow (- Z.pos n~1))
      with (x / 2 * bpow (- Z.pos n) * bpow (- Z.pos n)); [exact H5|].
    rewrite Rmult_assoc, <- bpow_add, Eopp.
    replace (- Z.pos n~1)%Z with (- 1 + - (Z.pos n + Z.pos n))%Z by lia.
    rewrite (bpow_add (-1)), bpow_m1. field.
  - destruct (IH _ _ Hm H) as [H2 H3].
    destruct (IH _ _ H2 H3) as [H4 H5].
    split; [exact H4|].
    replace (x * bpow (- Z.pos n~0))
      with (x * bpow (- Z.pos n) * bpow (- Z.pos n)); [exact H5|].
    rewrite Rmult_assoc, <- bpow_add, Eopp. f_equal. f_equal. lia.
  - destruct (shr_1_loc mrs x Hm H) as [H0 H1].
    split; [exact H0|].
    assert (x * bpow (- Z.pos 1) = x / 2) as ->; [|exact H1].
    rewrite bpow_opp, bpow_1. field.
Qed.

(** A right shift keeps the located real: [r], read at exponent [e],
    is read at the new exponent after the shift. *)
Lemma shr_loc mrs e n r :
  (0 <= shr_m mrs)%Z ->
  loc_at (shr_m mrs) (loc_of_shr_record mrs) (r * bpow (- e)) ->
  let '(mrs', e') := shr mrs e n in
  e' = (e + Z.max n 0)%Z /\
  (0 <= shr_m mrs')%Z /\
  loc_at (shr_m mrs') (loc_of_shr_record mrs') (r * bpow (- e')).
Proof.
  intros Hm H. destruct n as [|p|p]; cbn [shr].
  - split; [lia|]. split; assumption.
  - destruct (iter_shr_loc p mrs _ Hm H) as [H0 H1].
    split; [lia|]. split; [exact H0|].
    replace (r * bpow (- (e + Z.pos p)))
      with (r * bpow (- e) * bpow (- Z.pos p)); [exact H1|].
    rewrite Rmult_assoc, <- bpow_add. f_equal. f_equal. lia.
  - split; [lia|]. split; assumption.
Qed.

(** *** Number of binary digits *)

Lemma digits2_pos_spec p :
  (2 ^ (Z.pos (digits2_pos p) - 1) <= Z.pos p < 2 ^ Z.pos (digits2_pos p))%Z.
Proof.
  induction p as [p IH|p IH|]; cbn [digits2_pos].
  - rewrite Pos2Z.inj_succ, Z.pow_succ_r by lia.
    replace (Z.succ (Z.pos (digits2_pos p)) - 1)%Z
      with (Z.succ (Z.pos (digits2_pos p) - 1)) by lia.
    rewrite Z.pow_succ_r by lia. lia.
  - rewrite Pos2Z.inj_succ, Z.pow_succ_r by lia.
    replace (Z.succ (Z.pos (digits2_pos p)) - 1)%Z
      with (Z.succ (Z.pos (digits2_pos p) - 1)) by lia.
    rewrite Z.pow_succ_r by lia. lia.
  - cbn. lia.
Qed.

Lemma Zdigits2_nonneg m : (0 <= m -> 0 <= Zdigits2 m)%Z.
Proof. destruct m; cbn; lia. Qed.

Lemma Zdigits2_upper m : (0 <= m -> m < 2 ^ Zdigits2 m)%Z.
Proof.
  intros Hm. destruct m as [|p|p]; [cbn; lia| |lia].
  apply digits2_pos_spec.
Qed.

Lemma Zdigits2_lower m : (0 < m -> 2 ^ (Zdigits2 m - 1) <= m)%Z.
Proof.
  intros Hm. destruct m as [|p|p]; [lia| |lia].
  apply digits2_pos_spec.
Qed.

Lemma Zdigits2_le m k : (0 <= m -> 0 <= k -> m < 2 ^ k -> Zdigits2 m <= k)%Z.
Proof.
  intros Hm Hk Hlt.
  destruct (Z.eq_dec m 0) as [->|Hz]; [cbn; lia|].
  pose proof (Zdigits2_lower m ltac:(lia)) as Hl.
  destruct (Z.le_gt_cases (Zdigits2 m) k) as [|Hgt]; [assumption|exfalso].
  assert (2 ^ k <= 2 ^ (Zdigits2 m - 1))%Z by (apply Z.pow_le_mono_r; lia).
  lia.
Qed.

Lemma Zdigits2_pow2 k : (0 <= k -> Zdigits2 (2 ^ k) = k + 1)%Z.
Proof.
  intros Hk.
  assert (0 < 2 ^ k)%Z as Hp by (apply Z.pow_pos_nonneg; lia).
  pose proof (Zdigits2_lower _ Hp) as Hl.
  pose proof (Zdigits2_upper (2 ^ k) ltac:(lia)) as Hu.
  pose proof (Zdigits2_nonneg (2 ^ k) ltac:(lia)) as Hn.
  apply Z.pow_lt_mono_r_iff in Hu; [|lia|lia].
  destruct (Z.le_gt_cases (Zdigits2 (2 ^ k)) (k + 1)) as [|Hgt]; [lia|exfalso].
  assert (2 ^ (k + 1) <= 2 ^ (Zdigits2 (2 ^ k) - 1))%Z
    by (apply Z.pow_le_mono_r; lia).
  rewrite Z.pow_add_r in * by lia. lia.
Qed.

Lemma IZR_lt_bpow m k : (0 <= k)%Z -> (m < 2 ^ k)%Z -> IZR m + 1 <= bpow k.
Proof.
  intros Hk H. rewrite bpow_IZR by exact Hk. rewrite <- plus_IZR.
  apply IZR_le. lia.
Qed.

Lemma bpow_le_IZR m k : (0 <= k)%Z -> (2 ^ k <= m)%Z -> bpow k <= IZR m.
Proof.
  intros Hk H. rewrite bpow_IZR by exact Hk. now apply IZR_le.
Qed.

(** *** Scaling by a power of two *)

Lemma rescale r a b : r * bpow (- a) * bpow (a - b) = r * bpow (- b).
Proof.
  rewrite Rmult_assoc, <- bpow_add. f_equal. f_equal. lia.
Qed.

Lemma unscale r e : r = r * bpow (- e) * bpow e.
Proof.
  rewrite Rmult_assoc, (Rmult_comm (bpow (- e))), bpow_mul_opp. ring.
Qed.

Lemma scaled_lt r e d : r * bpow (- e) < bpow d -> r < bpow (d + e).
Proof.
  intros H. rewrite bpow_add, (unscale r e).
  apply Rmult_lt_compat_r; [apply bpow_pos|exact H].
Qed.

Lemma scaled_ge r e d : bpow d <= r * bpow (- e) -> bpow (d + e) <= r.
Proof.
  intros H. rewrite bpow_add, (unscale r e).
  apply Rmult_le_compat_r; [pose proof (bpow_pos e); lra|exact H].
Qed.

Lemma scale_lt r e d : r < bpow (d + e) -> r * bpow (- e) < bpow d.
Proof.
  intros H. replace d with (d + e + - e)%Z by lia. rewrite (bpow_add (d + e)).
  apply Rmult_lt_compat_r; [apply bpow_pos|exact H].
Qed.

Lemma scale_ge r e d : bpow (d + e) <= r -> bpow d <= r * bpow (- e).
Proof.
  intros H. replace d with (d + e + - e)%Z at 1 by lia. rewrite (bpow_add (d + e)).
  apply Rmult_le_compat_r; [pose proof (bpow_pos (- e)); lra|exact H].
Qed.

(** *** Rounding to nearest even *)

Lemma round_nearest_even_rne m l x :
  loc_at m l x -> rne x (round_nearest_even m l).
Proof.
  unfold rne.
  destruct l as [|[]]; cbn [loc_at round_nearest_even]; intros H;
    [|destruct (Z.even m) eqn:Ev|..]; rewrite ?plus_IZR.
  - subst. split; [lra|]. intros [E|E]; lra.
  - split; [lra|]. intros _. exact Ev.
  - split; [lra|]. intros _. rewrite Z.even_add, Ev. reflexivity.
  - split; [lra|]. intros [E|E]; lra.
  - split; [lra|]. intros [E|E]; lra.
Qed.

Lemma fexp_eq e : fexp B32.prec B32.emax e = Z.max (e - 24) (-149).
Proof. reflexivity. Qed.

Lemma shr_nop mrs e n : (n <= 0)%Z -> shr mrs e n = (mrs, e).
Proof. destruct n; cbn; auto. lia. Qed.

Lemma Rmin_left a b : a <= b -> Rmin a b = a.
Proof. intros H. unfold Rmin. destruct (Rle_dec a b); lra. Qed.

Lemma Rmin_right a b : b <= a -> Rmin a b = b.
Proof. intros H. unfold Rmin. destruct (Rle_dec a b); lra. Qed.

(** The rounding core of [SpecFloat] computes [Rounds]. *)
Lemma binary_round_aux_spec s m e l r :
  (0 <= m)%Z ->
  loc_at m l (r * bpow (- e)) ->
  (e <= fexp B32.prec B32.emax (Zdigits2 m + e))%Z ->
  ok (binary_round_aux B32.prec B32.emax s m e l) /\
  exists w, Rounds r w /\
    XV (binary_round_aux B32.prec B32.emax s m e l) = sgn s * w.
Proof.
  intros Hm Hloc He.
  pose proof (Zdigits2_nonneg m Hm) as Hd0.
  pose proof (Zdigits2_upper m Hm) as Hdu.
  set (d := Zdigits2 m) in *.
  set (t := fexp B32.prec B32.emax (d + e)) in *.
  assert (t = Z.max (d + e - 24) (-149)) as Et by apply fexp_eq.
  pose proof (loc_at_bounds _ _ _ Hloc) as [Hx0 Hx1].
  pose proof (IZR_lt_bpow m d Hd0 Hdu) as Hxd.
  assert (0 <= r) as Hr0.
  { pose proof (bpow_pos e). pose proof (bpow_pos (- e)).
    apply IZR_le in Hm. rewrite (unscale r e).
    apply Rmult_le_pos; lra. }
  assert (r < bpow (d + e)) as Hru by (apply scaled_lt; lra).
  (* first shift *)
  unfold binary_round_aux, shr_fexp. fold d. fold t.
  pose proof (shr_loc (shr_record_of_loc m l) e (t - e) r) as H1.
  rewrite shr_m_record_of_loc, loc_of_record_of_loc in H1.
  specialize (H1 Hm Hloc).
  destruct (shr (shr_record_of_loc m l) e (t - e)) as [mrs' e'].
  destruct H1 as (Ee' & Hm' & Hloc').
  assert (e' = t) as Het by lia. clear Ee'. subst e'.
  (* rounding *)
  pose proof (round_nearest_even_rne _ _ _ Hloc') as Hrne.
  set (n1 := round_nearest_even (shr_m mrs') (loc_of_shr_record mrs')) in *.
  assert (r * bpow (- t) < bpow 24) as Hs24.
  { apply scale_lt. eapply Rlt_le_trans; [exact Hru|]. apply bpow_le. lia. }
  assert (0 <= n1 <= 2 ^ 24)%Z as Hn1.
  { split.
    - apply (rne_ge_int _ _ 0 Hrne).
      pose proof (bpow_pos (- t)). apply Rmult_le_pos; lra.
    - apply (rne_le_int _ _ (2 ^ 24) Hrne).
      rewrite <- bpow_IZR by lia. lra. }
  assert (good_exp r t) as Hg.
  { destruct (Z.eq_dec m 0) as [Hz|Hz].
    - left. subst m. change d with 0%Z in *.
      assert (t = -149)%Z as Ht by lia. split; [exact Ht|].
      eapply Rlt_le_trans; [exact Hru|]. apply bpow_le. lia.
    - pose proof (Zdigits2_lower m ltac:(lia)) as Hdl. fold d in Hdl.
      assert (1 <= d)%Z as Hd1.
      { destruct m; cbn in d; lia. }
      assert (bpow (d - 1 + e) <= r) as Hrl.
      { apply scaled_ge. pose proof (bpow_le_IZR m (d - 1) ltac:(lia) Hdl). lra. }
      destruct (Z.le_gt_cases (-149) (d + e - 24)) as [Hc|Hc].
      + right. split; [lia|].
        replace (t + 23)%Z with (d - 1 + e)%Z by lia.
        replace (t + 24)%Z with (d + e)%Z by lia. lra.
      + left. split; [lia|].
        eapply Rlt_le_trans; [exact Hru|]. apply bpow_le. lia. }
  (* second shift *)
  assert (exists m'' e'',
    shr (shr_record_of_loc n1 loc_Exact) t
        (fexp B32.prec B32.emax (Zdigits2 n1 + t) - t) =
      ({| shr_m := m''; shr_r := false; shr_s := false |}, e'') /\
    IZR m'' * bpow e'' = IZR n1 * bpow t /\
    (0 <= m'' < 2 ^ 24)%Z /\
    (m'' = n1 /\ e'' = t \/ m'' = 2 ^ 23 /\ e'' = t + 1)%Z /\
    (m'' = 0 \/ fexp B32.prec B32.emax (Zdigits2 m'' + e'') = e'')%Z)
    as (m'' & e'' & Hshr & Hval & Hm'' & Hcase & Hcanon).
  { destruct (Z.eq_dec n1 (2 ^ 24)) as [E|E].
    - exists (2 ^ 23)%Z, (t + 1)%Z. rewrite E.
      rewrite (Zdigits2_pow2 24) by lia. rewrite fexp_eq.
      replace (Z.max (24 + 1 + t - 24) (-149) - t)%Z with 1%Z by lia.
      split; [reflexivity|]. split.
      + rewrite bpow_succ. rewrite <- !bpow_IZR by lia.
        replace 24%Z with (23 + 1)%Z at 1 by lia. rewrite bpow_succ. ring.
      + split; [lia|]. split; [right; split; reflexivity|].
        right. rewrite (Zdigits2_pow2 23), fexp_eq by lia. lia.
    - exists n1, t.
      assert (Zdigits2 n1 <= 24)%Z as Hdn by (apply Zdigits2_le; lia).
      rewrite shr_nop by (rewrite fexp_eq; lia).
      split; [reflexivity|]. split; [reflexivity|].
      split; [lia|]. split; [left; split; reflexivity|].
      destruct (Z.eq_dec n1 0) as [Z0|Z0]; [left; exact Z0|right].
      rewrite fexp_eq.
      destruct Hg as [[Ht _]|[Ht [Hl _]]]; [lia|].
      destruct (Z.eq_dec t (-149)) as [Et'|Et']; [lia|].
      assert (2 ^ 23 <= n1)%Z as Hn23.
      { apply (rne_ge_int _ _ _ Hrne). rewrite <- bpow_IZR by lia.
        apply scale_ge. now rewrite Z.add_comm. }
      pose proof (Zdigits2_upper n1 ltac:(lia)) as Hu.
      pose proof (Zdigits2_nonneg n1 ltac:(lia)) as Hn.
      assert (2 ^ 23 < 2 ^ Zdigits2 n1)%Z as K by lia.
      apply Z.pow_lt_mono_r_iff in K; lia. }
  rewrite Hshr. cbn [shr_m].
  destruct m'' as [|p|p]; [| |lia].
  - (* zero *)
    split; [split; [reflexivity|discriminate]|]. exists 0. split.
    + split; [exact Hr0|]. exists t, n1. split; [exact Hg|]. split; [exact Hrne|].
      rewrite <- Hval. rewrite Rmult_0_l. rewrite Rmin_left; [reflexivity|].
      pose proof (bpow_pos 128). lra.
    + cbn [XV]. ring.
  - change (B32.emax - B32.prec)%Z with 104%Z.
    destruct (Z.leb_spec e'' 104) as [Hle|Hgt].
    + assert (IZR (Z.pos p) * bpow e'' < bpow 128) as Hfin.
      { assert (IZR (Z.pos p) + 1 <= bpow 24) as Hp by (apply IZR_lt_bpow; lia).
        pose proof (bpow_pos e''). pose proof (bpow_le e'' 104 Hle).
        replace 128%Z with (24 + 104)%Z by lia. rewrite bpow_add.
        pose proof (bpow_pos 24). nra. }
      split.
      { split; [|discriminate]. cbn [valid_binary].
        unfold SpecFloat.bounded, canonical_mantissa.
        apply andb_true_iff. split; [apply Z.eqb_eq|apply Z.leb_le; exact Hle].
        destruct Hcanon as [K|K]; [lia|exact K]. }
      exists (IZR n1 * bpow t). split.
      * split; [exact Hr0|]. exists t, n1. split; [exact Hg|].
        split; [exact Hrne|]. rewrite Rmin_left; [reflexivity|]. lra.
      * cbn [XV]. rewrite Hval. reflexivity.
    + assert (bpow 128 <= IZR (Z.pos p) * bpow e'') as Hinf.
      { assert (bpow 23 <= IZR (Z.pos p)) as Hp.
        { destruct Hcase as [[Ec Ete]|[Ec _]].
          - rewrite Ec. rewrite bpow_IZR by lia. apply IZR_le.
            apply (rne_ge_int _ _ (2 ^ 23) Hrne).
            rewrite <- bpow_IZR by lia.
            destruct Hg as [[Ht _]|[_ [Hl _]]]; [lia|].
            apply scale_ge. now rewrite Z.add_comm.
          - rewrite Ec. rewrite bpow_IZR by lia. lra. }
        pose proof (bpow_pos e''). pose proof (bpow_le 105 e'' ltac:(lia)).
        replace 128%Z with (23 + 105)%Z by lia. rewrite bpow_add.
        pose proof (bpow_pos 23). pose proof (bpow_pos 105). nra. }
      split; [split; [reflexivity|discriminate]|]. exists (bpow 128). split.
      * split; [exact Hr0|]. exists t, n1. split; [exact Hg|].
        split; [exact Hrne|]. rewrite Rmin_right; [reflexivity|]. lra.
      * reflexivity.
Qed.

(** *** Rounding is monotone *)

Lemma rounded_same_exp r1 r2 t n1 n2 :
  r1 <= r2 -> rne (r1 * bpow (- t)) n1 -> rne (r2 * bpow (- t)) n2 ->
  IZR n1 * bpow t <= IZR n2 * bpow t.
Proof.
  intros Hr H1 H2. apply Rmult_le_compat_r; [pose proof (bpow_pos t); lra|].
  apply IZR_le. apply (rne_mono _ _ _ _ H1 H2).
  apply Rmult_le_compat_r; [pose proof (bpow_pos (- t)); lra|exact Hr].
Qed.

Lemma rounded_cross_exp r1 r2 t1 t2 n1 n2 :
  (t1 < t2)%Z ->
  r1 < bpow (t1 + 24) -> bpow (t2 + 23) <= r2 ->
  rne (r1 * bpow (- t1)) n1 -> rne (r2 * bpow (- t2)) n2 ->
  IZR n1 * bpow t1 <= IZR n2 * bpow t2.
Proof.
  intros Ht Hu Hl H1 H2.
  assert (n1 <= 2 ^ 24)%Z as Hn1.
  { apply (rne_le_int _ _ _ H1). rewrite <- bpow_IZR by lia.
    apply Rlt_le. apply scale_lt. now rewrite Z.add_comm. }
  assert (2 ^ 23 <= n2)%Z as Hn2.
  { apply (rne_ge_int _ _ _ H2). rewrite <- bpow_IZR by lia.
    apply scale_ge. now rewrite Z.add_comm. }
  apply IZR_le in Hn1, Hn2. rewrite <- bpow_IZR in Hn1, Hn2 by lia.
  pose proof (bpow_pos t1). pose proof (bpow_pos t2).
  pose proof (bpow_le (24 + t1) (23 + t2) ltac:(lia)) as Hb.
  rewrite !bpow_add in Hb. nra.
Qed.

Lemma Rounds_mono r1 r2 w1 w2 :
  Rounds r1 w1 -> Rounds r2 w2 -> r1 <= r2 -> w1 <= w2.
Proof.
  intros (H01 & t1 & n1 & G1 & N1 & ->) (H02 & t2 & n2 & G2 & N2 & ->) Hr.
  apply Rle_min_compat_r.
  assert (t1 = t2 \/ (t1 < t2)%Z /\ r1 < bpow (t1 + 24) /\
          bpow (t2 + 23) <= r2) as [E|(Ht & Hu & Hl)].
  { destruct G1 as [[E1 U1]|[L1 [B1 U1]]], G2 as [[E2 U2]|[L2 [B2 U2]]].
    - left. lia.
    - destruct (Z.eq_dec t2 (-149)) as [E|E]; [left; lia|right].
      split; [lia|]. subst t1. split; [exact U1|exact B2].
    - left. assert (bpow (t1 + 23) < bpow (-125)) as K by lra.
      apply bpow_lt_inv in K. lia.
    - assert (bpow (t1 + 23) < bpow (t2 + 24)) as K by lra.
      apply bpow_lt_inv in K.
      destruct (Z.eq_dec t1 t2) as [E|E]; [left; exact E|right].
      split; [lia|]. split; assumption. }
  - subst t2. now apply (rounded_same_exp r1 r2).
  - now apply (rounded_cross_exp r1 r2).
Qed.

Lemma Rounds_range r w : Rounds r w -> 0 <= w <= bpow 128.
Proof.
  intros (H0 & t & n & G & N & ->). split.
  - apply Rmin_glb; [|pose proof (bpow_pos 128); lra].
    apply Rmult_le_pos; [|pose proof (bpow_pos t); lra].
    apply IZR_le. apply (rne_ge_int _ _ 0 N).
    apply Rmult_le_pos; [exact H0|pose proof (bpow_pos (- t)); lra].
  - apply Rmin_r.
Qed.

Lemma Rounds_0 w : Rounds 0 w -> w = 0.
Proof.
  intros (H0 & t & n & G & N & ->).
  rewrite Rmult_0_l in N.
  assert (n = 0)%Z as ->.
  { pose proof (rne_le_int _ _ 0 N ltac:(lra)).
    pose proof (rne_ge_int _ _ 0 N ltac:(lra)). lia. }
  rewrite Rmult_0_l. apply Rmin_left. pose proof (bpow_pos 128). lra.
Qed.

Lemma SRounds_intro s a w r v :
  Rounds a w -> r = sgn s * a -> v = sgn s * w -> SRounds r v.
Proof.
  intros Hw Hr Hv. exists s, a, w. pose proof (proj1 Hw). auto.
Qed.

Lemma SRounds_mono r1 r2 v1 v2 :
  SRounds r1 v1 -> SRounds r2 v2 -> r1 <= r2 -> v1 <= v2.
Proof.
  intros (s1 & a1 & w1 & A1 & -> & -> & R1) (s2 & a2 & w2 & A2 & -> & -> & R2) Hr.
  pose proof (Rounds_range _ _ R1) as [W1 _].
  pose proof (Rounds_range _ _ R2) as [W2 _].
  destruct s1, s2; unfold sgn in *.
  - assert (a2 <= a1) as Ha by lra.
    pose proof (Rounds_mono _ _ _ _ R2 R1 Ha). lra.
  - lra.
  - assert (a1 = 0) by lra. assert (a2 = 0) by lra. subst.
    rewrite (Rounds_0 _ R1), (Rounds_0 _ R2). lra.
  - assert (a1 <= a2) as Ha by lra.
    pose proof (Rounds_mono _ _ _ _ R1 R2 Ha). lra.
Qed.

Lemma SRounds_range r v : SRounds r v -> - bpow 128 <= v <= bpow 128.
Proof.
  intros (s & a & w & A & -> & -> & Rw).
  pose proof (Rounds_range _ _ Rw). destruct s; unfold sgn; lra.
Qed.

(** *** The operations *)

Lemma pos_iter_xO m d : Z.pos (Pos.iter xO m d) = (Z.pos m * 2 ^ Z.pos d)%Z.
Proof.
  revert m. induction d as [|d IH] using Pos.peano_ind; intros m.
  - cbn [Pos.iter]. rewrite Pos2Z.inj_xO. change (2 ^ 1)%Z with 2%Z. lia.
  - rewrite Pos.iter_succ, Pos2Z.inj_xO, IH, Pos2Z.inj_succ.
    rewrite Z.pow_succ_r by lia. lia.
Qed.

Lemma digits_pos_iter_xO m d :
  Z.pos (digits2_pos (Pos.iter xO m d)) = (Z.pos (digits2_pos m) + Z.pos d)%Z.
Proof.
  revert m. induction d as [|d IH] using Pos.peano_ind; intros m.
  - cbn [Pos.iter digits2_pos]. lia.
  - rewrite Pos.iter_succ. cbn [digits2_pos].
    rewrite Pos2Z.inj_succ, IH. lia.
Qed.

Lemma shl_align_spec m e e' :
  let '(mz, ez) := shl_align m e e' in
  IZR (Z.pos mz) * bpow ez = IZR (Z.pos m) * bpow e /\
  (ez = Z.min e e')%Z /\
  (Z.pos (digits2_pos mz) + ez = Z.pos (digits2_pos m) + e)%Z.
Proof.
  unfold shl_align. destruct (e' - e)%Z as [|d|d] eqn:E.
  - split; [reflexivity|]. split; lia.
  - split; [reflexivity|]. split; lia.
  - split; [|split; [lia|]].
    + rewrite pos_iter_xO, mult_IZR, <- bpow_IZR by lia.
      rewrite Rmult_assoc, <- bpow_add. f_equal. f_equal. lia.
    + rewrite digits_pos_iter_xO. lia.
Qed.

Lemma Rounds_zero : Rounds 0 0.
Proof.
  split; [lra|]. exists (-149)%Z, 0%Z. split; [|split].
  - left. split; [reflexivity|apply bpow_pos].
  - rewrite Rmult_0_l. split; [lra|]. intros _. reflexivity.
  - rewrite Rmult_0_l. symmetry. apply Rmin_left.
    pose proof (bpow_pos 128). lra.
Qed.

Lemma binary_round_spec s m e :
  ok (binary_round B32.prec B32.emax s m e) /\
  exists w, Rounds (IZR (Z.pos m) * bpow e) w /\
    XV (binary_round B32.prec B32.emax s m e) = sgn s * w.
Proof.
  unfold binary_round.
  pose proof (shl_align_spec m e
    (fexp B32.prec B32.emax (Z.pos (digits2_pos m) + e))) as H.
  destruct (shl_align m e _) as [mz ez]. destruct H as (Hv & He & Hd).
  rewrite <- Hv. apply binary_round_aux_spec.
  - lia.
  - cbn [loc_at]. rewrite Rmult_assoc, (Rmult_comm (bpow ez)), bpow_mul_opp'.
    ring.
  - cbn [Zdigits2]. rewrite Hd. lia.
Qed.

Lemma sgn_opp s : sgn (negb s) = - sgn s.
Proof. destruct s; unfold sgn; cbn; lra. Qed.

Lemma sgn_xorb a b : sgn (xorb a b) = sgn a * sgn b.
Proof. destruct a, b; unfold sgn; cbn; lra. Qed.

Lemma binary_normalize_spec z e sz :
  ok (binary_normalize B32.prec B32.emax z e sz) /\
  SRounds (IZR z * bpow e) (XV (binary_normalize B32.prec B32.emax z e sz)).
Proof.
  destruct z as [|p|p]; cbn [binary_normalize].
  - split; [split; [reflexivity|discriminate]|].
    apply (SRounds_intro false 0 0); [apply Rounds_zero| |]; cbn [XV]; ring.
  - destruct (binary_round_spec false p e) as (Hok & w & Hw & Hv).
    split; [exact Hok|].
    apply (SRounds_intro false _ _ _ _ Hw); [unfold sgn; ring|exact Hv].
  - destruct (binary_round_spec true p e) as (Hok & w & Hw & Hv).
    split; [exact Hok|].
    apply (SRounds_intro true _ _ _ _ Hw); [|exact Hv].
    change (Z.neg p) with (- Z.pos p)%Z. rewrite opp_IZR. unfold sgn. ring.
Qed.

Lemma shl_align_fst m e ez :
  (ez <= e)%Z ->
  IZR (Z.pos (fst (shl_align m e ez))) * bpow ez = IZR (Z.pos m) * bpow e.
Proof.
  intros H. pose proof (shl_align_spec m e ez) as K.
  destruct (shl_align m e ez) as [a b]. destruct K as (Hv & Hb & _).
  cbn [fst]. replace ez with b by lia. exact Hv.
Qed.

Lemma IZR_cond_Zopp s z : IZR (cond_Zopp s z) = sgn s * IZR z.
Proof. destruct s; unfold sgn; cbn [cond_Zopp]; rewrite ?opp_IZR; ring. Qed.

Lemma add_finite_spec sx mx ex sy my ey :
  let x := S754_finite sx mx ex in
  let y := S754_finite sy my ey in
  ok (SFadd B32.prec B32.emax x y) /\
  SRounds (XV x + XV y) (XV (SFadd B32.prec B32.emax x y)).
Proof.
  intros x y. cbn [SFadd x y].
  match goal with |- ok (binary_normalize _ _ ?z ?e _) /\ _ =>
    replace (XV x + XV y) with (IZR z * bpow e) end.
  - apply binary_normalize_spec.
  - rewrite plus_IZR, !IZR_cond_Zopp. cbn [XV x y].
    rewrite Rmult_plus_distr_r, !Rmult_assoc.
    rewrite !shl_align_fst by lia. reflexivity.
Qed.

Lemma mul_finite_spec sx mx ex sy my ey :
  let x := S754_finite sx mx ex in
  let y := S754_finite sy my ey in
  (2 ^ 23 <= Z.pos my)%Z ->
  ok (SFmul B32.prec B32.emax x y) /\
  SRounds (XV x * XV y) (XV (SFmul B32.prec B32.emax x y)).
Proof.
  intros x y Hy. cbn [SFmul x y].
  destruct (binary_round_aux_spec (xorb sx sy) (Z.pos (mx * my)) (ex + ey)
              loc_Exact (IZR (Z.pos mx) * bpow ex * (IZR (Z.pos my) * bpow ey)))
    as (Hok & w & Hw & Hv).
  - lia.
  - cbn [loc_at]. rewrite Pos2Z.inj_mul, mult_IZR.
    replace (- (ex + ey))%Z with (- ex + - ey)%Z by lia. rewrite bpow_add.
    transitivity (IZR (Z.pos mx) * IZR (Z.pos my) *
                  (bpow ex * bpow (- ex)) * (bpow ey * bpow (- ey))); [ring|].
    rewrite !bpow_mul_opp. ring.
  - rewrite fexp_eq.
    assert (24 <= Zdigits2 (Z.pos (mx * my)))%Z; [|lia].
    pose proof (Zdigits2_upper (Z.pos (mx * my)) ltac:(lia)) as Hu.
    pose proof (Zdigits2_nonneg (Z.pos (mx * my)) ltac:(lia)) as Hn.
    assert (2 ^ 23 < 2 ^ Zdigits2 (Z.pos (mx * my)))%Z as K by nia.
    apply Z.pow_lt_mono_r_iff in K; lia.
  - split; [exact Hok|].
    apply (SRounds_intro (xorb sx sy) _ _ _ _ Hw); [|exact Hv].
    cbn [XV x y]. rewrite sgn_xorb. ring.
Qed.

Lemma new_location_spec m2 r q :
  (0 < m2)%Z -> (0 <= r < m2)%Z ->
  loc_at q (new_location m2 r) (IZR q + IZR r / IZR m2).
Proof.
  intros Hm Hr.
  assert (0 < IZR m2) as HM by (apply IZR_lt; lia).
  set (y := IZR r / IZR m2).
  assert (IZR r = y * IZR m2) as Ey by (unfold y; field; lra).
  assert (forall a b : Z, (a < b)%Z -> IZR a < IZR b) as Hlt by (intros; now apply IZR_lt).
  unfold new_location.
  destruct (Z.eq_dec r 0) as [E0|E0].
  - destruct (Z.even m2); unfold new_location_even, new_location_odd, y;
      subst r; cbn [Z.eqb loc_at]; unfold Rdiv; rewrite Rmult_0_l; ring.
  - assert (0 < IZR r) as Hr0 by (apply IZR_lt; lia).
    assert (IZR r < IZR m2) as Hr1 by (apply IZR_lt; lia).
    destruct (Z.even m2) eqn:Ev; unfold new_location_even, new_location_odd;
      rewrite (proj2 (Z.eqb_neq r 0) E0).
    + destruct (Z.compare_spec (2 * r) m2) as [E|E|E]; cbn [loc_at].
      * apply (f_equal IZR) in E. rewrite mult_IZR in E. nra.
      * apply Hlt in E. rewrite mult_IZR in E. nra.
      * apply Hlt in E. rewrite mult_IZR in E. nra.
    + assert (2 * r <> m2)%Z as Hodd.
      { intros K. rewrite <- K, Z.even_mul in Ev. discriminate. }
      destruct (Z.compare_spec (2 * r + 1) m2) as [E|E|E]; cbn [loc_at].
      * assert (2 * r < m2)%Z as K by lia.
        apply Hlt in K. rewrite mult_IZR in K. nra.
      * assert (2 * r < m2)%Z as K by lia.
        apply Hlt in K. rewrite mult_IZR in K. nra.
      * assert (m2 < 2 * r)%Z as K by lia.
        apply Hlt in K. rewrite mult_IZR in K. nra.
Qed.

Lemma div_core_spec m1 e1 m2 e2 :
  let '(q, e', l) :=
    SFdiv_core_binary B32.prec B32.emax (Z.pos m1) e1 (Z.pos m2) e2 in
  (0 <= q)%Z /\
  loc_at q l (IZR (Z.pos m1) * bpow e1 / (IZR (Z.pos m2) * bpow e2) * bpow (- e')) /\
  (e' <= fexp B32.prec B32.emax (Zdigits2 q + e'))%Z.
Proof.
  unfold SFdiv_core_binary.
  set (d1 := Zdigits2 (Z.pos m1)). set (d2 := Zdigits2 (Z.pos m2)).
  set (e' := Z.min (fexp B32.prec B32.emax (d1 + e1 - (d2 + e2))) (e1 - e2)).
  set (s := (e1 - e2 - e')%Z).
  assert (0 <= s)%Z as Hs by (unfold s, e'; lia).
  set (m' := match s with
             | 0%Z => Z.pos m1
             | Z.pos _ => Z.shiftl (Z.pos m1) s
             | Z.neg _ => 0%Z
             end).
  assert (m' = Z.pos m1 * 2 ^ s)%Z as Em'.
  { unfold m'. destruct s as [|p|p]; [cbn; lia| |lia].
    apply Z.shiftl_mul_pow2. lia. }
  clearbody m'.
  pose proof (Z_div_mod m' (Z.pos m2) ltac:(lia)) as Hdm.
  destruct (Z.div_eucl m' (Z.pos m2)) as [q r]. destruct Hdm as [Eq Hr].
  assert (0 < 2 ^ s)%Z as Hp by (apply Z.pow_pos_nonneg; lia).
  assert (0 <= q)%Z as Hq by nia.
  split; [exact Hq|]. split.
  - replace (IZR (Z.pos m1) * bpow e1 / (IZR (Z.pos m2) * bpow e2) * bpow (- e'))
      with (IZR q + IZR r / IZR (Z.pos m2)).
    + apply new_location_spec; lia.
    + assert (0 < IZR (Z.pos m2)) as HM by (apply IZR_lt; lia).
      pose proof (bpow_pos e2) as H2.
      assert (IZR m' = IZR (Z.pos m2) * IZR q + IZR r) as Em
        by (rewrite Eq, plus_IZR, mult_IZR; reflexivity).
      rewrite Em', mult_IZR, <- bpow_IZR in Em by lia.
      assert (bpow s = bpow e1 * / bpow e2 * bpow (- e')) as Es.
      { unfold s. replace (e1 - e2 - e')%Z with (e1 + - e2 + - e')%Z by lia.
        rewrite !bpow_add, (bpow_opp e2). reflexivity. }
      rewrite Es in Em.
      transitivity ((IZR (Z.pos m2) * IZR q + IZR r) / IZR (Z.pos m2));
        [field; lra|].
      rewrite <- Em. field. lra.
  - rewrite fexp_eq. destruct (Z.le_gt_cases e' (-149)) as [Hc|Hc]; [lia|].
    assert (24 <= Zdigits2 q)%Z; [|lia].
    pose proof (digits2_pos_spec m1) as [L1 U1].
    pose proof (digits2_pos_spec m2) as [L2 U2].
    fold (Zdigits2 (Z.pos m1)) in L1, U1. fold (Zdigits2 (Z.pos m2)) in L2, U2.
    fold d1 in L1, U1. fold d2 in L2, U2.
    assert (1 <= d1)%Z by (unfold d1; cbn; lia).
    assert (1 <= d2)%Z by (unfold d2; cbn; lia).
    assert (d2 - d1 + 24 <= s)%Z as Hs2.
    { unfold s, e' in *. rewrite fexp_eq in *. lia. }
    assert (2 ^ d2 * 2 ^ 23 <= Z.pos m1 * 2 ^ s)%Z as Hbig.
    { rewrite <- Z.pow_add_r by lia.
      transitivity (2 ^ (d1 - 1) * 2 ^ s)%Z; [|nia].
      rewrite <- Z.pow_add_r by lia. apply Z.pow_le_mono_r; lia. }
    assert (2 ^ 23 <= q)%Z as Hq23.
    { assert (0 < 2 ^ d2)%Z by (apply Z.pow_pos_nonneg; lia).
      change (2 ^ 23)%Z with 8388608%Z in *. nia. }
    pose proof (Zdigits2_upper q Hq) as Hu.
    pose proof (Zdigits2_nonneg q Hq) as Hn.
    assert (2 ^ 23 < 2 ^ Zdigits2 q)%Z as K by lia.
    apply Z.pow_lt_mono_r_iff in K; lia.
Qed.

Lemma div_finite_spec sx mx ex sy my ey :
  let x := S754_finite sx mx ex in
  let y := S754_finite sy my ey in
  ok (SFdiv B32.prec B32.emax x y) /\
  SRounds (XV x / XV y) (XV (SFdiv B32.prec B32.emax x y)).
Proof.
  intros x y. cbn [SFdiv x y].
  pose proof (div_core_spec mx ex my ey) as H.
  destruct (SFdiv_core_binary _ _ _ _ _ _) as [[q e'] l].
  destruct H as (Hq & Hloc & He).
  destruct (binary_round_aux_spec (xorb sx sy) q e' l _ Hq Hloc He)
    as (Hok & w & Hw & Hv).
  split; [exact Hok|].
  apply (SRounds_intro (xorb sx sy) _ _ _ _ Hw); [|exact Hv].
  cbn [XV x y]. rewrite sgn_xorb.
  assert (0 < IZR (Z.pos my)) by (apply IZR_lt; lia).
  pose proof (bpow_pos ey).
  destruct sx, sy; unfold sgn; field; lra.
Qed.

(** *** Floats and the reals they stand for *)

(** A valid finite float is its own rounding. *)
Lemma bounded_Rounds m e :
  SpecFloat.bounded B32.prec B32.emax m e = true ->
  IZR (Z.pos m) * bpow e < bpow 128 /\
  Rounds (IZR (Z.pos m) * bpow e) (IZR (Z.pos m) * bpow e).
Proof.
  unfold SpecFloat.bounded, canonical_mantissa. intros H.
  apply andb_true_iff in H as [Hc He].
  apply Z.eqb_eq in Hc. apply Z.leb_le in He.
  rewrite fexp_eq in Hc. change (B32.emax - B32.prec)%Z with 104%Z in He.
  pose proof (digits2_pos_spec m) as [Hl Hu].
  set (d := Z.pos (digits2_pos m)) in *.
  assert (1 <= d)%Z as Hd1 by (unfold d; lia).
  assert (d <= 24)%Z as Hd by lia.
  assert (0 < IZR (Z.pos m)) as Hm0 by (apply IZR_lt; lia).
  assert (IZR (Z.pos m) + 1 <= bpow d) as Hmu by (apply IZR_lt_bpow; lia).
  assert (bpow (d - 1) <= IZR (Z.pos m)) as Hml by (apply bpow_le_IZR; lia).
  pose proof (bpow_pos e) as Hbe.
  assert (IZR (Z.pos m) * bpow e < bpow (d + e)) as Hvu
    by (rewrite bpow_add; nra).
  assert (bpow (d - 1 + e) <= IZR (Z.pos m) * bpow e) as Hvl
    by (rewrite bpow_add; nra).
  assert (IZR (Z.pos m) * bpow e < bpow 128) as Hfin.
  { eapply Rlt_le_trans; [exact Hvu|]. apply bpow_le. lia. }
  split; [exact Hfin|]. split; [nra|].
  exists e, (Z.pos m). split; [|split].
  - destruct (Z.eq_dec e (-149)) as [E|E].
    + left. split; [exact E|].
      eapply Rlt_le_trans; [exact Hvu|]. apply bpow_le. lia.
    + right. split; [lia|].
      assert (d = 24)%Z by lia.
      replace (e + 23)%Z with (d - 1 + e)%Z by lia.
      replace (e + 24)%Z with (d + e)%Z by lia. lra.
  - rewrite Rmult_assoc, bpow_mul_opp, Rmult_1_r.
    split; [lra|]. intros [K|K]; lra.
  - symmetry. apply Rmin_left. lra.
Qed.

Lemma valid_ok x : valid_binary B32.prec B32.emax x = true -> x <> S754_nan -> ok x.
Proof. intros H N. split; assumption. Qed.

Lemma valid_SRounds s m e :
  SpecFloat.bounded B32.prec B32.emax m e = true ->
  SRounds (XV (S754_finite s m e)) (XV (S754_finite s m e)).
Proof.
  intros H. destruct (bounded_Rounds m e H) as [_ Hr].
  now apply (SRounds_intro s _ _ _ _ Hr).
Qed.

Lemma finite_range s m e :
  ok (S754_finite s m e) ->
  - bpow 128 < XV (S754_finite s m e) < bpow 128 /\
  XV (S754_finite s m e) <> 0.
Proof.
  intros [Hx _]. cbn [valid_binary] in Hx.
  apply bounded_Rounds in Hx as [Hx _]. cbn [XV].
  assert (0 < IZR (Z.pos m)) by (apply IZR_lt; lia).
  pose proof (bpow_pos e).
  assert (0 < IZR (Z.pos m) * bpow e) by nra.
  destruct s; unfold sgn; split; lra.
Qed.

Lemma ok_range x : ok x -> - bpow 128 <= XV x <= bpow 128.
Proof.
  pose proof (bpow_pos 128).
  destruct x as [s|s| |s m e]; intros Hx.
  - cbn [XV]. lra.
  - cbn [XV]. destruct s; unfold sgn; lra.
  - cbn [XV]. lra.
  - pose proof (finite_range _ _ _ Hx). lra.
Qed.

(** For valid floats the comparison of [SpecFloat] is the order of the
    reals. *)
Lemma finite_lt_exp m1 e1 m2 e2 :
  SpecFloat.bounded B32.prec B32.emax m1 e1 = true ->
  SpecFloat.bounded B32.prec B32.emax m2 e2 = true ->
  (e1 < e2)%Z ->
  IZR (Z.pos m1) * bpow e1 < IZR (Z.pos m2) * bpow e2.
Proof.
  unfold SpecFloat.bounded, canonical_mantissa. intros H1 H2 He.
  apply andb_true_iff in H1 as [H1 _]. apply andb_true_iff in H2 as [H2 _].
  apply Z.eqb_eq in H1, H2. rewrite fexp_eq in H1, H2.
  pose proof (digits2_pos_spec m1) as [_ U1].
  pose proof (digits2_pos_spec m2) as [L2 _].
  assert (IZR (Z.pos m1) + 1 <= bpow 24) as A1.
  { apply IZR_lt_bpow; [lia|]. eapply Z.lt_le_trans; [exact U1|].
    apply Z.pow_le_mono_r; lia. }
  assert (bpow 23 <= IZR (Z.pos m2)) as A2.
  { apply bpow_le_IZR; [lia|]. eapply Z.le_trans; [|exact L2].
    apply Z.pow_le_mono_r; lia. }
  pose proof (bpow_pos e1). pose proof (bpow_pos e2).
  pose proof (bpow_le (e1 + 1) e2 ltac:(lia)) as Hb. rewrite bpow_succ in Hb.
  assert (bpow 24 = 2 * bpow 23) as E24 by (rewrite <- bpow_succ; reflexivity).
  pose proof (bpow_pos 23). nra.
Qed.

Lemma leb_XV x y :
  valid_binary B32.prec B32.emax x = true ->
  valid_binary B32.prec B32.emax y = true ->
  SFleb x y = true -> ok x /\ ok y /\ XV x <= XV y.
Proof.
  intros Vx Vy H.
  assert (x <> S754_nan) as Nx by (intros ->; discriminate).
  assert (y <> S754_nan) as Ny by (intros ->; destruct x; discriminate).
  pose proof (valid_ok x Vx Nx) as Ox. pose proof (valid_ok y Vy Ny) as Oy.
  split; [exact Ox|]. split; [exact Oy|].
  pose proof (ok_range x Ox) as Rx. pose proof (ok_range y Oy) as Ry.
  pose proof (bpow_pos 128) as HB.
  unfold SFleb, SFcompare in H.
  destruct x as [sx|sx| |sx mx ex]; [| |congruence|];
    destruct y as [sy|sy| |sy my ey]; try congruence.
  - cbn [XV]. lra.
  - cbn [XV] in *. destruct sy; [discriminate|]. unfold sgn. lra.
  - destruct (finite_range _ _ _ Oy) as [_ Hn].
    pose proof (finite_range sy my ey Oy) as [[A B] _].
    cbn [XV] in *. destruct sy; [discriminate|]. unfold sgn in *.
    assert (0 < IZR (Z.pos my)) by (apply IZR_lt; lia). pose proof (bpow_pos ey).
    nra.
  - cbn [XV] in *. destruct sx; [unfold sgn; lra|discriminate].
  - cbn [XV] in *. destruct sx, sy; try discriminate; unfold sgn; lra.
  - cbn [XV] in *. destruct sx; [unfold sgn in *; lra|discriminate].
  - cbn [XV] in *. destruct sx; [|discriminate]. unfold sgn.
    assert (0 < IZR (Z.pos mx)) by (apply IZR_lt; lia). pose proof (bpow_pos ex).
    nra.
  - cbn [XV] in *. destruct sy; [discriminate|]. unfold sgn in *. lra.
  - cbn [valid_binary] in Vx, Vy. cbn [XV].
    assert (0 < IZR (Z.pos mx)) by (apply IZR_lt; lia). pose proof (bpow_pos ex).
    assert (0 < IZR (Z.pos my)) by (apply IZR_lt; lia). pose proof (bpow_pos ey).
    destruct sx, sy; unfold sgn; try discriminate.
    + destruct (Z.compare_spec ex ey) as [E|E|E]; try discriminate.
      * subst ey. rewrite Pos.compare_cont_spec in H. cbn in H.
        destruct (Pos.compare_spec mx my) as [K|K|K]; try discriminate.
        -- subst. lra.
        -- assert (IZR (Z.pos my) < IZR (Z.pos mx)) by (apply IZR_lt; lia). nra.
      * pose proof (finite_lt_exp _ _ _ _ Vy Vx E). lra.
    + nra.
    + destruct (Z.compare_spec ex ey) as [E|E|E]; try discriminate.
      * subst ey. rewrite Pos.compare_cont_spec in H. cbn in H.
        destruct (Pos.compare_spec mx my) as [K|K|K]; try discriminate.
        -- subst. lra.
        -- assert (IZR (Z.pos mx) < IZR (Z.pos my)) by (apply IZR_lt; lia). nra.
      * pose proof (finite_lt_exp _ _ _ _ Vx Vy E). lra.
Qed.

End Rounding.

Import Rounding.

(** ** Order and truncation *)

Module Order.
Local Open Scope R_scope.

Lemma trunc_of_mono z1 z2 v1 v2 :
  trunc_of z1 v1 -> trunc_of z2 v2 -> v1 <= v2 -> (z1 <= z2)%Z.
Proof.
  intros [P1 N1] [P2 N2] Hv.
  destruct (Rle_dec 0 v1) as [H1|H1].
  - assert (0 <= v2) as H2 by lra.
    specialize (P1 H1). specialize (P2 H2). apply IZR_lt_succ. lra.
  - assert (v1 <= 0) as H1' by lra. specialize (N1 H1').
    destruct (Rle_dec v2 0) as [H2|H2].
    + specialize (N2 H2). apply IZR_lt_succ. lra.
    + assert (0 <= v2) as H2' by lra. specialize (P2 H2').
      assert (z1 < 1)%Z by (apply lt_IZR; lra).
      assert (-1 < z2)%Z by (apply lt_IZR; lra). lia.
Qed.

Lemma floor_pow2 m p :
  IZR (Z.shiftr (Z.pos m) (Z.pos p)) <= IZR (Z.pos m) * bpow (Z.neg p)
    < IZR (Z.shiftr (Z.pos m) (Z.pos p)) + 1.
Proof.
  rewrite Z.shiftr_div_pow2 by lia.
  assert (0 < 2 ^ Z.pos p)%Z as Hp by (apply Z.pow_pos_nonneg; lia).
  pose proof (Z_div_mod_eq_full (Z.pos m) (2 ^ Z.pos p)) as E.
  pose proof (Z.mod_pos_bound (Z.pos m) (2 ^ Z.pos p) Hp) as [B0 B1].
  apply (f_equal IZR) in E. rewrite plus_IZR, mult_IZR in E.
  apply IZR_le in B0. apply IZR_lt in B1.
  change (Z.neg p) with (- Z.pos p)%Z. rewrite bpow_opp.
  rewrite <- bpow_IZR in * by lia.
  pose proof (bpow_pos (Z.pos p)) as HB.
  set (a := IZR (Z.pos m / 2 ^ Z.pos p)) in *.
  set (r := IZR (Z.pos m mod 2 ^ Z.pos p)) in *.
  rewrite E.
  replace ((bpow (Z.pos p) * a + r) * / bpow (Z.pos p))
    with (a + r * / bpow (Z.pos p)) by (field; lra).
  assert (0 <= r * / bpow (Z.pos p) < 1); [|lra].
  split.
  - apply Rmult_le_pos; [exact B0|]. apply Rlt_le, Rinv_0_lt_compat, HB.
  - apply (Rmult_lt_reg_r (bpow (Z.pos p))); [exact HB|].
    rewrite Rmult_assoc, Rinv_l by lra. lra.
Qed.

Lemma trunc_spec x z : B32.trunc x = Some z -> trunc_of z (XV x).
Proof.
  destruct x as [s|s| |s m e]; cbn [B32.trunc XV]; try discriminate.
  - intros [= <-]. split; lra.
  - intros [= <-].
    assert (0 < IZR (Z.pos m)) as Hm by (apply IZR_lt; lia).
    pose proof (bpow_pos e) as He.
    assert (exists a, (match e with
                       | Z.neg p => Z.shiftr (Z.pos m) (Z.pos p)
                       | _ => Z.shiftl (Z.pos m) e
                       end = a) /\
                      IZR a <= IZR (Z.pos m) * bpow e < IZR a + 1)
      as (a & -> & Ha).
    { destruct e as [|p|p]; eexists; (split; [reflexivity|]).
      - cbn [Z.shiftl]. rewrite bpow_0. lra.
      - rewrite Z.shiftl_mul_pow2, mult_IZR, <- bpow_IZR by lia. lra.
      - apply floor_pow2. }
    assert (0 < IZR (Z.pos m) * bpow e) as Hv by nra.
    destruct s; unfold sgn, trunc_of; cbv beta iota; rewrite ?opp_IZR;
      split; intros; lra.
Qed.

Lemma ord_of_rounds f g :
  rounds_as f g -> (forall a b, a <= b -> g a <= g b) ->
  forall x y, ord x y -> ord (f x) (f y).
Proof.
  intros Hf Hg x y (Ox & Oy & Hxy).
  destruct (Hf x Ox) as [Ofx Sx]. destruct (Hf y Oy) as [Ofy Sy].
  split; [exact Ofx|]. split; [exact Ofy|].
  pose proof (ok_range _ Ofx) as Rx. pose proof (ok_range _ Ofy) as Ry.
  pose proof (bpow_pos 128) as HB.
  assert (forall z, ok z -> match z with S754_infinity _ => True
                            | _ => - bpow 128 < XV z < bpow 128 end) as Hin.
  { intros [s|s| |s m e] Oz.
    - cbn [XV]. lra.
    - exact I.
    - cbn [XV]. lra.
    - apply (finite_range _ _ _ Oz). }
  pose proof (Hin x Ox) as Ix. pose proof (Hin y Oy) as Iy.
  destruct x as [sx|sx| |sx mx ex]; destruct y as [sy|sy| |sy my ey];
    try (now destruct Ox as [_ []]); try (now destruct Oy as [_ []]);
    try (rewrite Sx); try (rewrite Sy);
    try (eapply SRounds_mono; [exact Sx|exact Sy|apply Hg; exact Hxy]);
    cbn [XV] in *; try (destruct sx); try (destruct sy); unfold sgn in *; lra.
Qed.

Lemma SRounds_zero : SRounds 0 0.
Proof.
  apply (SRounds_intro false 0 0); [apply Rounds_zero| |]; unfold sgn; ring.
Qed.

Lemma finite_ok s m e :
  SpecFloat.bounded B32.prec B32.emax m e = true -> ok (S754_finite s m e).
Proof. intros H. split; [exact H|discriminate]. Qed.

Lemma finite_pos m e : 0 < XV (S754_finite false m e).
Proof.
  cbn [XV]. unfold sgn.
  assert (0 < IZR (Z.pos m)) by (apply IZR_lt; lia).
  pose proof (bpow_pos e). nra.
Qed.

Section Constant.
Variables (sK : bool) (mK : positive) (eK : Z).
Hypothesis HK : SpecFloat.bounded B32.prec B32.emax mK eK = true.
Let K := S754_finite sK mK eK.

Lemma add_r_rounds :
  rounds_as (fun x => B32.add x K) (fun v => v + XV K).
Proof.
  intros x Ox. destruct x as [s|s| |s m e].
  - split; [apply finite_ok, HK|].
    change (B32.add (S754_zero s) K) with K. cbn [XV]. rewrite Rplus_0_l.
    apply valid_SRounds, HK.
  - split; [exact Ox|reflexivity].
  - now destruct Ox as [_ []].
  - apply add_finite_spec.
Qed.

Lemma add_l_rounds :
  rounds_as (fun x => B32.add K x) (fun v => XV K + v).
Proof.
  intros x Ox. destruct x as [s|s| |s m e].
  - split; [apply finite_ok, HK|].
    change (B32.add K (S754_zero s)) with K. cbn [XV]. rewrite Rplus_0_r.
    apply valid_SRounds, HK.
  - split; [exact Ox|reflexivity].
  - now destruct Ox as [_ []].
  - apply add_finite_spec.
Qed.

Hypothesis HsK : sK = false.

Lemma div_r_rounds :
  rounds_as (fun x => B32.div x K) (fun v => v / XV K).
Proof.
  intros x Ox. subst K. rewrite HsK. destruct x as [s|s| |s m e].
  - cbn [B32.div SFdiv]. split; [split; [reflexivity|discriminate]|].
    cbn [XV]. unfold Rdiv. rewrite Rmult_0_l. apply SRounds_zero.
  - cbn [B32.div SFdiv]. rewrite xorb_false_r. split; [exact Ox|reflexivity].
  - now destruct Ox as [_ []].
  - apply div_finite_spec.
Qed.

Hypothesis HmK : (2 ^ 23 <= Z.pos mK)%Z.

Lemma mul_r_rounds :
  rounds_as (fun x => B32.mul x K) (fun v => v * XV K).
Proof.
  intros x Ox. subst K. rewrite HsK. destruct x as [s|s| |s m e].
  - cbn [B32.mul SFmul]. split; [split; [reflexivity|discriminate]|].
    cbn [XV]. rewrite Rmult_0_l. apply SRounds_zero.
  - cbn [B32.mul SFmul]. rewrite xorb_false_r. split; [exact Ox|reflexivity].
  - now destruct Ox as [_ []].
  - apply mul_finite_spec. exact HmK.
Qed.

End Constant.

Lemma div_pos_mono c a b : 0 < c -> a <= b -> a / c <= b / c.
Proof.
  intros Hc H. unfold Rdiv. apply Rmult_le_compat_r; [|exact H].
  apply Rlt_le, Rinv_0_lt_compat, Hc.
Qed.

Lemma mul_pos_mono c a b : 0 < c -> a <= b -> a * c <= b * c.
Proof. intros Hc H. apply Rmult_le_compat_r; lra. Qed.

(** The dial expression is monotone. *)
Lemma dial_expr_mono x y : ord x y -> ord (dial_expr x) (dial_expr y).
Proof.
  intros H. unfold dial_expr.
  change (B32.of_Z (-90)) with (S754_finite true 11796480 (-17)).
  change (B32.of_Z MAX_POWER_RETURN) with (S754_finite false 12582912 (-21)).
  change (B32.of_Z (MAX_POWER_RETURN + MAX_POWER_CONSUMPTION))
    with (S754_finite false 12582912 (-19)).
  change (B32.of_Z 180) with (S754_finite false 11796480 (-16)).
  apply (ord_of_rounds _ _ (add_l_rounds true 11796480 (-17) eq_refl));
    [intros; lra|].
  apply (ord_of_rounds _ _
           (mul_r_rounds false 11796480 (-16) eq_refl ltac:(lia)));
    [intros; apply mul_pos_mono; [apply finite_pos|assumption]|].
  apply (ord_of_rounds _ _ (div_r_rounds false 12582912 (-19) eq_refl));
    [intros; apply div_pos_mono; [apply finite_pos|assumption]|].
  apply (ord_of_rounds _ _ (add_r_rounds false 12582912 (-21) eq_refl));
    [intros; lra|].
  exact H.
Qed.

Lemma to_int16_spec x z :
  B32.to_int16 x = Some z ->
  trunc_of z (XV x) /\ (-32768 <= z <= 32767)%Z.
Proof.
  unfold B32.to_int16. destruct (B32.trunc x) as [t|] eqn:E; [|discriminate].
  destruct ((-32768 <=? t)%Z && (t <=? 32767)%Z) eqn:B; [|discriminate].
  intros [= <-]. split; [now apply trunc_spec|].
  apply andb_true_iff in B as [B1 B2]. lia.
Qed.

End Order.

Import Order.

(** ** The text of the dial *)

Module TextFacts.

Lemma binary_round_aux_abs p em s m e l :
  SFabs (binary_round_aux p em s m e l) = binary_round_aux p em false m e l.
Proof.
  unfold binary_round_aux.
  destruct (shr_fexp p em m e l) as [mrs' e'].
  destruct (shr_fexp p em _ e' loc_Exact) as [mrs'' e''].
  destruct (shr_m mrs''); cbn [SFabs]; try reflexivity.
  destruct (e'' <=? em - p); reflexivity.
Qed.

Lemma binary_round_abs p em s m e :
  SFabs (binary_round p em s m e) = binary_round p em false m e.
Proof.
  unfold binary_round. destruct (shl_align m e _) as [mz ez].
  apply binary_round_aux_abs.
Qed.

Lemma mul_abs x mK eK :
  B32.fabs (B32.mul x (S754_finite false mK eK)) =
  B32.mul (B32.fabs x) (S754_finite false mK eK).
Proof.
  destruct x as [s|s| |s m e]; cbn [B32.fabs B32.mul SFabs SFmul]; try reflexivity.
  apply binary_round_aux_abs.
Qed.

Lemma div_abs x mK eK :
  B32.fabs (B32.div x (S754_finite false mK eK)) =
  B32.div (B32.fabs x) (S754_finite false mK eK).
Proof.
  destruct x as [s|s| |s m e]; cbn [B32.fabs B32.div SFabs SFdiv]; try reflexivity.
  destruct (SFdiv_core_binary _ _ _ _ _ _) as [[q e'] l].
  apply binary_round_aux_abs.
Qed.

Lemma round_abs x : B32.fabs (B32.round x) = B32.round (B32.fabs x).
Proof.
  destruct x as [s|s| |s m e]; try reflexivity.
  destruct e as [|p|p]; try reflexivity.
  cbn [B32.fabs B32.round SFabs].
  assert (0 <= Z.shiftr (Z.pos m + Z.shiftl 1 (Z.pos p - 1)) (Z.pos p)) as Hn.
  { apply Z.shiftr_nonneg.
    assert (0 <= Z.shiftl 1 (Z.pos p - 1)) by (apply Z.shiftl_nonneg; lia). lia. }
  destruct (Z.shiftr _ _) as [|n|n]; [| |lia].
  - destruct s; reflexivity.
  - destruct s; cbn [Z.opp binary_normalize]; apply binary_round_abs.
Qed.

Lemma round_tenths_abs x : B32.fabs (round_tenths x) = round_tenths (B32.fabs x).
Proof.
  unfold round_tenths.
  change (B32.of_Z 10) with (S754_finite false 10485760 (-20)).
  now rewrite div_abs, round_abs, mul_abs.
Qed.

Local Open Scope R_scope.

Lemma XV_10 : XV (S754_finite false 10485760 (-20)) = 10.
Proof.
  cbn [XV]. unfold sgn. change (-20)%Z with (- (20))%Z.
  rewrite bpow_opp, bpow_IZR by lia. change (2 ^ 20)%Z with 1048576%Z. lra.
Qed.

Lemma XV_100 : XV (S754_finite false 13107200 (-17)) = 100.
Proof.
  cbn [XV]. unfold sgn. change (-17)%Z with (- (17))%Z.
  rewrite bpow_opp, bpow_IZR by lia. change (2 ^ 17)%Z with 131072%Z. lra.
Qed.

Lemma fabs_ok x : ok x -> ok (B32.fabs x).
Proof.
  intros [V N]. destruct x; try exact (conj V N); split; try discriminate;
    try reflexivity. exact V.
Qed.

Lemma fabs_pos x : 0 < XV x -> B32.fabs x = x.
Proof.
  destruct x as [s|s| |s m e]; cbn [XV B32.fabs SFabs]; intros H; try lra.
  - pose proof (bpow_pos 128). destruct s; unfold sgn in H; [lra|reflexivity].
  - pose proof (finite_pos m e) as K. cbn [XV] in K. unfold sgn in *.
    destruct s; [lra|reflexivity].
Qed.

Lemma round_ok y : ok y -> ok (B32.round y).
Proof.
  intros Oy. destruct y as [s|s| |s m e]; try exact Oy.
  destruct e as [|p|p]; try exact Oy.
  cbn [B32.round]. apply binary_normalize_spec.
Qed.

Lemma round_ge k y :
  (0 < k)%Z -> SRounds (IZR k) (IZR k) ->
  ok y -> IZR k <= XV y -> IZR k <= XV (B32.round y).
Proof.
  intros Hk Sk Oy Hy. assert (0 < IZR k) as Hk' by (apply IZR_lt; exact Hk).
  destruct y as [s|s| |s m e]; try exact Hy.
  destruct e as [|p|p]; try exact Hy.
  cbn [XV] in Hy.
  assert (0 < IZR (Z.pos m)) as Hm by (apply IZR_lt; lia).
  pose proof (bpow_pos (Z.neg p)) as Hb.
  assert (0 < IZR (Z.pos m) * bpow (Z.neg p)) as Hv by nra.
  destruct s; unfold sgn in Hy; [lra|].
  cbn [B32.round].
  set (n := Z.shiftr (Z.pos m + Z.shiftl 1 (Z.pos p - 1)) (Z.pos p)).
  assert (k <= n)%Z as Hn.
  { unfold n. rewrite Z.shiftr_div_pow2, Z.shiftl_mul_pow2 by lia.
    assert (0 < 2 ^ Z.pos p)%Z as Hp by (apply Z.pow_pos_nonneg; lia).
    assert (0 <= 2 ^ (Z.pos p - 1))%Z as Hq by (apply Z.pow_nonneg; lia).
    apply Z.div_le_lower_bound; [exact Hp|].
    assert (2 ^ Z.pos p * k <= Z.pos m)%Z; [|lia].
    apply le_IZR. rewrite mult_IZR, <- bpow_IZR by lia.
    change (Z.neg p) with (- Z.pos p)%Z in Hy.
    pose proof (bpow_pos (Z.pos p)) as HB.
    pose proof (bpow_mul_opp (Z.pos p)) as HI.
    replace (IZR (Z.pos m))
      with (IZR (Z.pos m) * bpow (- Z.pos p) * bpow (Z.pos p))
      by (rewrite Rmult_assoc, bpow_mul_opp'; ring).
    nra. }
  destruct (binary_normalize_spec n 0 false) as [_ Sn].
  rewrite bpow_0, Rmult_1_r in Sn.
  apply (SRounds_mono _ _ _ _ Sk Sn). now apply IZR_le.
Qed.

Lemma ok_10 : ok (S754_finite false 10485760 (-20)).
Proof. split; [reflexivity|discriminate]. Qed.

Lemma ok_100 : ok (S754_finite false 13107200 (-17)).
Proof. split; [reflexivity|discriminate]. Qed.

(** Rounding to tenths keeps a float that is not a NaN so, and keeps a
    magnitude of at least 10 at least 10. *)
Lemma round_tenths_ok x : ok x -> ok (round_tenths x).
Proof.
  intros Ox. unfold round_tenths.
  change (B32.of_Z 10) with (S754_finite false 10485760 (-20)).
  apply (div_r_rounds false 10485760 (-20) eq_refl).
  apply round_ok.
  apply (mul_r_rounds false 10485760 (-20) eq_refl ltac:(lia)). exact Ox.
Qed.

Lemma round_tenths_ge_10 x : ok x -> 10 <= XV x -> 10 <= XV (round_tenths x).
Proof.
  intros Ox Hx. unfold round_tenths.
  change (B32.of_Z 10) with (S754_finite false 10485760 (-20)).
  assert (ord (S754_finite false 10485760 (-20)) x) as H1.
  { split; [exact ok_10|]. split; [exact Ox|]. now rewrite XV_10. }
  apply (ord_of_rounds _ _
           (mul_r_rounds false 10485760 (-20) eq_refl ltac:(lia))) in H1;
    [|intros; apply mul_pos_mono; [apply finite_pos|assumption]].
  cbv beta in H1.
  change (B32.mul (S754_finite false 10485760 (-20))
                  (S754_finite false 10485760 (-20)))
    with (S754_finite false 13107200 (-17)) in H1.
  destruct H1 as (_ & O1 & H1). rewrite XV_100 in H1.
  assert (ord (S754_finite false 13107200 (-17))
              (B32.round (B32.mul x (S754_finite false 10485760 (-20))))) as H2.
  { split; [exact ok_100|]. split; [now apply round_ok|].
    rewrite XV_100. apply (round_ge 100); try assumption; [lia|].
    rewrite <- XV_100. now apply valid_SRounds. }
  apply (ord_of_rounds _ _ (div_r_rounds false 10485760 (-20) eq_refl)) in H2;
    [|intros; apply div_pos_mono; [apply finite_pos|assumption]].
  cbv beta in H2.
  change (B32.div (S754_finite false 13107200 (-17))
                  (S754_finite false 10485760 (-20)))
    with (S754_finite false 10485760 (-20)) in H2.
  destruct H2 as (_ & _ & H2). now rewrite XV_10 in H2.
Qed.

Local Open Scope Z_scope.

Lemma scaled_round_ge m e :
  (10 <= XV (S754_finite false m e))%R -> 100 <= scaled_round m e 1.
Proof.
  cbn [XV]. unfold sgn, scaled_round. rewrite Rmult_1_l.
  change (10 ^ Z.of_nat 1) with 10. intros H.
  destruct e as [|p|p].
  - rewrite bpow_0, Rmult_1_r in H. apply (le_IZR 10) in H. cbn [Z.shiftl]. lia.
  - rewrite Z.shiftl_mul_pow2 by lia.
    rewrite bpow_IZR, <- mult_IZR in H by lia. apply (le_IZR 10) in H. lia.
  - rewrite Z.shiftr_div_pow2, Z.shiftl_mul_pow2 by lia.
    assert (0 < 2 ^ Z.pos p) as Hp by (apply Z.pow_pos_nonneg; lia).
    assert (0 <= 2 ^ (Z.pos p - 1)) as Hq by (apply Z.pow_nonneg; lia).
    apply Z.div_le_lower_bound; [exact Hp|].
    assert (2 ^ Z.pos p * 10 <= Z.pos m); [|lia].
    apply le_IZR. rewrite mult_IZR, <- bpow_IZR by lia.
    change (Z.neg p) with (- Z.pos p) in H.
    pose proof (bpow_pos (Z.pos p)) as HB.
    replace (IZR (Z.pos m))
      with (IZR (Z.pos m) * bpow (- Z.pos p) * bpow (Z.pos p))%R
      by (rewrite Rmult_assoc, bpow_mul_opp'; ring).
    nra.
Qed.

Lemma length_append a b :
  String.length (a ++ b) = (String.length a + String.length b)%nat.
Proof. induction a as [|c a IH]; cbn; [reflexivity|now rewrite IH]. Qed.

Lemma length_pad_left c k s :
  String.length (pad_left c k s) = (k + String.length s)%nat.
Proof. induction k as [|k IH]; cbn; [reflexivity|now rewrite IH]. Qed.

Lemma digits_acc_length b f n acc :
  (String.length acc <= String.length (digits_acc b f n acc))%nat.
Proof.
  revert n acc. induction f as [|f IH]; intros n acc; cbn [digits_acc]; [lia|].
  destruct (n / b =? 0); [cbn; lia|].
  etransitivity; [|apply IH]. cbn. lia.
Qed.

Lemma digits_length_1 b n : (1 <= String.length (digits b n))%nat.
Proof.
  unfold digits. cbn [digits_acc]. destruct (n / b =? 0); [cbn; lia|].
  etransitivity; [|apply digits_acc_length]. cbn. lia.
Qed.

Lemma digits_length_2 n : 10 <= n -> (2 <= String.length (digits 10 n))%nat.
Proof.
  intros Hn. unfold digits.
  assert (3 <= Z.log2 n) as Hl by (apply (Z.log2_le_mono 8 n); lia).
  destruct (Z.to_nat (Z.log2 n)) as [|k] eqn:E; [lia|].
  cbn [digits_acc].
  assert (n / 10 <> 0) as Hd.
  { intros K. apply Z.div_small_iff in K; lia. }
  apply Z.eqb_neq in Hd. rewrite Hd.
  destruct (n / 10 / 10 =? 0); [cbn; lia|].
  etransitivity; [|apply digits_acc_length]. cbn. lia.
Qed.

Lemma fixed_point_length d : 100 <= d -> (4 <= String.length (fixed_point d 1))%nat.
Proof.
  intros Hd. unfold fixed_point. change (10 ^ Z.of_nat 1) with 10.
  rewrite !length_append, length_pad_left.
  assert (10 <= d / 10) as H10 by (apply Z.div_le_lower_bound; lia).
  pose proof (digits_length_2 _ H10).
  pose proof (digits_length_1 10 (d mod 10)). cbn [String.length]. lia.
Qed.

End TextFacts.

Import TextFacts.

(** ** The texts and their buffer *)

Module PadFacts.

Lemma fixed_point_length_3 d : (3 <= String.length (fixed_point d 1))%nat.
Proof.
  unfold fixed_point. change (10 ^ Z.of_nat 1) with 10.
  rewrite !length_append, length_pad_left.
  pose proof (digits_length_1 10 (d / 10)).
  pose proof (digits_length_1 10 (d mod 10)). cbn [String.length]. lia.
Qed.

Lemma pad_left_0 c s k : k = 0%nat -> pad_left c k s = s.
Proof. now intros ->. Qed.

(** A field width that the digits already fill changes nothing. *)
Lemma dtostrf_unpadded r w :
  (r = S754_zero true \/ r = S754_zero false -> w <= 3) ->
  (forall s m e, r = S754_finite s m e -> 4 <= w ->
                 100 <= scaled_round m e 1) ->
  w <= 4 ->
  dtostrf r w 1 = dtostrf r 0 1.
Proof.
  intros Hz Hf Hw. destruct r as [s|s| |s m e]; try reflexivity.
  - assert (w <= 3) by (apply Hz; destruct s; auto).
    pose proof (fixed_point_length_3 0).
    cbn [dtostrf]. rewrite !pad_left_0; [reflexivity| |]; clear Hz Hf; lia.
  - pose proof (fixed_point_length_3 (scaled_round m e 1)) as H3.
    assert (Z.to_nat w <= String.length (fixed_point (scaled_round m e 1) 1))%nat
      as Hl.
    { destruct (Z_le_gt_dec 4 w) as [H4|H4].
      - pose proof (fixed_point_length _ (Hf s m e eq_refl H4)). lia.
      - lia. }
    cbn [dtostrf].
    rewrite !pad_left_0; [reflexivity| |];
      destruct s; rewrite ?length_append; cbn [String.length]; lia.
Qed.

Lemma geb_10_XV x :
  B32.is_float x = true -> B32.geb x (B32.of_Z 10) = true ->
  ok x /\ (10 <= XV x)%R.
Proof.
  intros Vx H.
  apply (leb_XV (B32.of_Z 10) x eq_refl Vx) in H as (_ & Ox & H).
  change (B32.of_Z 10) with (S754_finite false 10485760 (-20)) in H.
  rewrite XV_10 in H. auto.
Qed.

Lemma dtostrf_length r w : (3 <= String.length (dtostrf r w 1))%nat.
Proof.
  destruct r as [s|s| |s m e]; cbn [dtostrf]; try (cbn; lia).
  - rewrite length_pad_left. pose proof (fixed_point_length_3 0). lia.
  - rewrite length_pad_left.
    pose proof (fixed_point_length_3 (scaled_round m e 1)).
    destruct s; [rewrite length_append|]; lia.
Qed.

(** The width [setCurrentValue] passes never inserts a blank. *)
Lemma dial_text_digits x :
  B32.is_float x = true ->
  dial_text x =
    match outstr (dtostrf (round_tenths (B32.fabs x)) 0 1) with
    | Some convstr => Some (convstr ++ "kW")
    | None => None
    end.
Proof.
  intros Vx.
  assert (x = S754_nan \/ x <> S754_nan) as [->|Nx]
    by (destruct x; try (right; discriminate); left; reflexivity);
    [reflexivity|].
  assert (ok x) as Ox by (split; assumption).
  set (r := round_tenths (B32.fabs x)).
  assert (B32.geb x (B32.of_Z 10) = true -> (10 <= XV r)%R) as Hcode.
  { intros H. apply (geb_10_XV x Vx) in H as [_ H].
    unfold r. rewrite fabs_pos by lra. now apply round_tenths_ge_10. }
  unfold dial_text. fold (round_tenths x). rewrite round_tenths_abs. fold r.
  rewrite (dtostrf_unpadded r (if B32.geb x (B32.of_Z 10) then 4 else 3));
    [reflexivity| | |].
  - intros Hz. destruct (B32.geb x (B32.of_Z 10)) eqn:G; [|lia].
    specialize (Hcode eq_refl). destruct Hz as [K|K]; rewrite K in Hcode;
      cbn [XV] in Hcode; lra.
  - intros s m e K H4. destruct (B32.geb x (B32.of_Z 10)) eqn:G; [|lia].
    specialize (Hcode eq_refl). rewrite K in Hcode.
    assert (s = false) as ->.
    { assert (r = B32.fabs r) as Er.
      { unfold r. rewrite <- round_tenths_abs. now destruct (round_tenths x). }
      rewrite K in Er. now injection Er. }
    now apply scaled_round_ge.
  - destruct (B32.geb x (B32.of_Z 10)); lia.
Qed.

(** Nor does the width [updateUsage] passes. *)
Lemma day_text_digits d :
  B32.is_float d = true ->
  day_text d =
    match outstr (dtostrf (round_tenths d) 0 1) with
    | Some convstr => Some (convstr ++ "kW")
    | None => None
    end.
Proof.
  intros Vd.
  assert (d = S754_nan \/ d <> S754_nan) as [->|Nd]
    by (destruct d; try (right; discriminate); left; reflexivity);
    [reflexivity|].
  assert (ok d) as Od by (split; assumption).
  unfold day_text. fold (round_tenths d).
  set (r := round_tenths d).
  assert (B32.geb (B32.fabs d) (B32.of_Z 10) = true -> (10 <= XV (B32.fabs r))%R)
    as Hcode.
  { intros H. pose proof (fabs_ok d Od) as [Va _].
    apply (geb_10_XV _ Va) in H as [Oa H].
    unfold r. rewrite round_tenths_abs. now apply round_tenths_ge_10. }
  rewrite (dtostrf_unpadded r
             (if B32.geb (B32.fabs d) (B32.of_Z 10) then 4 else 3));
    [reflexivity| | |].
  - intros Hz. destruct (B32.geb (B32.fabs d) (B32.of_Z 10)) eqn:G; [|lia].
    specialize (Hcode eq_refl). destruct Hz as [K|K]; rewrite K in Hcode;
      cbn [XV B32.fabs SFabs] in Hcode; lra.
  - intros s m e K H4. destruct (B32.geb (B32.fabs d) (B32.of_Z 10)) eqn:G; [|lia].
    specialize (Hcode eq_refl). rewrite K in Hcode.
    now apply scaled_round_ge.
  - destruct (B32.geb (B32.fabs d) (B32.of_Z 10)); lia.
Qed.

End PadFacts.

Module HalfFacts.
Local Open Scope R_scope.

(** Settles a comparison of the value of a float written out with
    rational constants. *)
Ltac xv :=
  cbn [XV]; unfold sgn;
  repeat match goal with
  | |- context [bpow (Z.neg ?p)] =>
      change (Z.neg p) with (- Z.pos p)%Z;
      rewrite (bpow_opp (Z.pos p)), (bpow_IZR (Z.pos p)) by lia;
      let v := eval vm_compute in (2 ^ Z.pos p)%Z in
      change (2 ^ Z.pos p)%Z with v
  end; lra.

Lemma XV_below_half : XV (S754_finite false 13041662 (-17)) < 99 + 1 / 2.
Proof. xv. Qed.

Lemma XV_half : 100 - 1 / 2 <= XV (S754_finite false 13041664 (-17)).
Proof. xv. Qed.

Lemma XV_fabs x : XV (B32.fabs x) = Rabs (XV x).
Proof.
  destruct x as [s|s| |s m e]; cbn [B32.fabs SFabs XV];
    try (symmetry; apply Rabs_R0).
  - pose proof (bpow_pos 128). destruct s; unfold sgn.
    + rewrite Rabs_left by lra. ring.
    + rewrite Rabs_right by lra. ring.
  - pose proof (finite_pos m e) as K. cbn [XV] in K. unfold sgn in *.
    destruct s.
    + rewrite Rabs_left by lra. ring.
    + rewrite Rabs_right by lra. ring.
Qed.

(** [round] takes a value from [k - 1/2] on to at least [k]. *)
Lemma round_ge_half k y :
  (0 < k)%Z -> SRounds (IZR k) (IZR k) ->
  ok y -> IZR k - 1 / 2 <= XV y -> IZR k <= XV (B32.round y).
Proof.
  intros Hk Sk Oy Hy. assert (1 <= IZR k) as Hk' by (apply IZR_le; lia).
  assert (forall z : Z, IZR k - 1 / 2 <= IZR z -> IZR k <= IZR z) as Hint.
  { intros z Hz. apply IZR_le.
    assert (2 * k - 1 <= 2 * z)%Z; [|lia].
    apply le_IZR. rewrite minus_IZR, !mult_IZR. lra. }
  destruct y as [s|s| |s m e].
  - cbn [B32.round XV] in *. lra.
  - cbn [B32.round XV] in *. pose proof (bpow_pos 128).
    destruct s; unfold sgn in *; [lra|].
    rewrite Rmult_1_l in *. rewrite bpow_IZR in * by lia. now apply Hint.
  - now destruct Oy as [_ []].
  - assert (0 < IZR (Z.pos m)) as Hm by (apply IZR_lt; lia).
    pose proof (bpow_pos e) as Hb.
    assert (0 < IZR (Z.pos m) * bpow e) as Hv by nra.
    destruct e as [|p|p].
    + cbn [B32.round XV] in *. destruct s; unfold sgn in *; [lra|].
      rewrite bpow_0, Rmult_1_l, Rmult_1_r in *. now apply Hint.
    + cbn [B32.round XV] in *. destruct s; unfold sgn in *; [lra|].
      rewrite Rmult_1_l in *. rewrite bpow_IZR, <- mult_IZR in * by lia.
      now apply Hint.
    + cbn [XV] in Hy. destruct s; unfold sgn in Hy; [lra|].
      rewrite Rmult_1_l in Hy. cbn [B32.round].
      set (n := Z.shiftr (Z.pos m + Z.shiftl 1 (Z.pos p - 1)) (Z.pos p)).
      assert (0 < 2 ^ Z.pos p)%Z as Hp by (apply Z.pow_pos_nonneg; lia).
      assert (0 < 2 ^ (Z.pos p - 1))%Z as Hq by (apply Z.pow_pos_nonneg; lia).
      assert (2 ^ Z.pos p = 2 * 2 ^ (Z.pos p - 1))%Z as Hpq.
      { rewrite <- Z.pow_succ_r by lia. f_equal. lia. }
      assert (k <= n)%Z as Hn.
      { unfold n. rewrite Z.shiftr_div_pow2, Z.shiftl_mul_pow2 by lia.
        apply Z.div_le_lower_bound; [exact Hp|].
        assert ((2 * k - 1) * 2 ^ Z.pos p <= 2 * Z.pos m)%Z; [|lia].
        apply le_IZR. rewrite !mult_IZR, minus_IZR, mult_IZR, <- bpow_IZR by lia.
        change (Z.neg p) with (- Z.pos p)%Z in Hy.
        pose proof (bpow_pos (Z.pos p)) as HB.
        replace (IZR (Z.pos m))
          with (IZR (Z.pos m) * bpow (- Z.pos p) * bpow (Z.pos p))
          by (rewrite Rmult_assoc, bpow_mul_opp'; ring).
        nra. }
      destruct (binary_normalize_spec n 0 false) as [_ Sn].
      rewrite bpow_0, Rmult_1_r in Sn.
      apply (SRounds_mono _ _ _ _ Sk Sn). now apply IZR_le.
Qed.

Lemma mul_10_mono x y : ord x y -> ord (B32.mul x c10) (B32.mul y c10).
Proof.
  apply (ord_of_rounds _ _
           (mul_r_rounds false 10485760 (-20) eq_refl ltac:(lia))).
  intros; apply mul_pos_mono; [apply finite_pos|assumption].
Qed.

Lemma div_10_mono x y : ord x y -> ord (B32.div x c10) (B32.div y c10).
Proof.
  apply (ord_of_rounds _ _ (div_r_rounds false 10485760 (-20) eq_refl)).
  intros; apply div_pos_mono; [apply finite_pos|assumption].
Qed.

Lemma round_tenths_ge x y k mk ek :
  (0 < k)%Z ->
  SpecFloat.bounded B32.prec B32.emax mk ek = true ->
  XV (S754_finite false mk ek) = IZR k ->
  ord y x -> IZR k - 1 / 2 <= XV (B32.mul y c10) ->
  ord (B32.div (S754_finite false mk ek) c10) (round_tenths x).
Proof.
  intros Hk Bk Ek Hxy Hy. unfold round_tenths.
  change (B32.of_Z 10) with c10. apply div_10_mono.
  apply mul_10_mono in Hxy. destruct Hxy as (_ & Ox & Hxy).
  split; [now apply finite_ok|]. split; [now apply round_ok|].
  rewrite Ek. apply round_ge_half; try assumption; [|lra].
  rewrite <- Ek. now apply valid_SRounds.
Qed.

End HalfFacts.

Module CursorFacts.
Import HalfFacts.

Lemma bpow_128_big : (4376 < bpow 128)%R.
Proof. rewrite bpow_IZR by lia. apply IZR_lt. reflexivity. Qed.

Lemma digits_small n : 0 <= n < 10 -> String.length (digits 10 n) = 1%nat.
Proof.
  intros Hn. unfold digits. cbn [digits_acc].
  rewrite Z.div_small by lia. reflexivity.
Qed.

Lemma fixed_point_length_eq d :
  0 <= d < 100 -> String.length (fixed_point d 1) = 3%nat.
Proof.
  intros Hd. unfold fixed_point. change (10 ^ Z.of_nat 1) with 10.
  rewrite !length_append, length_pad_left.
  rewrite (digits_small (d / 10)), (digits_small (d mod 10)).
  - reflexivity.
  - apply Z.mod_pos_bound. lia.
  - split; [apply Z.div_pos; lia|apply Z.div_lt_upper_bound; lia].
Qed.

(** The digits of a finite value from 10 on are at least four. *)
Lemma dtostrf_length_4 v :
  B32.is_finite v = true -> (10 <= XV v)%R ->
  (4 <= String.length (dtostrf v 0 1))%nat.
Proof.
  intros Fv Hv. destruct v as [s|s| |s m e]; try discriminate.
  - cbn [XV] in Hv. lra.
  - assert (s = false) as ->.
    { destruct s; [|reflexivity]. pose proof (finite_pos m e) as K.
      cbn [XV] in *. unfold sgn in *. lra. }
    cbn [dtostrf]. rewrite length_pad_left.
    pose proof (fixed_point_length _ (scaled_round_ge m e Hv)). lia.
Qed.

(** Those of a negative finite float too: a sign and three more. *)
Lemma dtostrf_length_neg m e :
  (4 <= String.length (dtostrf (S754_finite true m e) 0 1))%nat.
Proof.
  cbn [dtostrf]. rewrite length_pad_left, length_append.
  pose proof (PadFacts.fixed_point_length_3 (scaled_round m e 1)).
  cbn [String.length]. lia.
Qed.

(** A float above a positive float is at least the next float. *)
Lemma leb_succ m0 e0 v :
  v <> S754_nan ->
  B32.leb v (S754_finite false m0 e0) = false ->
  B32.leb (S754_finite false (Pos.succ m0) e0) v = true.
Proof.
  intros Nv. unfold B32.leb, SFleb, SFcompare.
  destruct v as [s|s| |s m e]; try congruence.
  - destruct s; [discriminate|reflexivity].
  - destruct s; [discriminate|].
    rewrite (Z.compare_antisym e e0).
    destruct (e ?= e0); cbn [CompOpp]; try congruence.
    change (PosDef.Pos.compare_cont Eq m m0) with (Pos.compare m m0).
    change (PosDef.Pos.compare_cont Eq (Pos.succ m0) m)
      with (Pos.compare (Pos.succ m0) m).
    destruct (Pos.compare_spec m m0) as [E|E|E]; try discriminate.
    intros _. apply Pos.le_succ_l in E. apply Pos.compare_le_iff in E.
    destruct (Pos.succ m0 ?= m)%positive; congruence.
Qed.

Lemma leb_next v :
  v <> S754_nan ->
  B32.leb v one_digit_max = false ->
  B32.leb (S754_finite false 10433331 (-20)) v = true.
Proof. exact (leb_succ 10433330 (-20) v). Qed.

(** A float above a negative float is at least the next float. *)
Lemma leb_succ_neg m0 e0 v :
  v <> S754_nan ->
  B32.leb v (S754_finite true (Pos.succ m0) e0) = false ->
  B32.leb (S754_finite true m0 e0) v = true.
Proof.
  intros Nv. unfold B32.leb, SFleb, SFcompare.
  destruct v as [s|s| |s m e]; try congruence.
  - destruct s; [discriminate|reflexivity].
  - destruct s; [|reflexivity].
    rewrite (Z.compare_antisym e e0).
    destruct (e ?= e0); cbn [CompOpp]; try congruence.
    change (PosDef.Pos.compare_cont Eq m (Pos.succ m0))
      with (Pos.compare m (Pos.succ m0)).
    change (PosDef.Pos.compare_cont Eq m0 m) with (Pos.compare m0 m).
    destruct (Pos.compare_spec m (Pos.succ m0)) as [E|E|E];
      cbn [CompOpp]; try discriminate.
    intros _. apply Pos.lt_succ_r in E. apply Pos.compare_ge_iff in E.
    destruct (m0 ?= m)%positive eqn:K; cbn [CompOpp]; try reflexivity.
    congruence.
Qed.

End CursorFacts.

Module TenthsFacts.
Import HalfFacts CursorFacts.
Local Open Scope R_scope.

Lemma XV_power_22 : XV (S754_finite false 8388608 (-1)) = 4194304.
Proof. xv. Qed.

Lemma XV_near_half : - (1 / 2) < XV (S754_finite true 16777215 (-25)).
Proof. xv. Qed.

Lemma XV_minus_half : XV (S754_finite true 8388608 (-24)) <= -1 + 1 / 2.
Proof. xv. Qed.

Lemma XV_minus_1 : XV (S754_finite true 8388608 (-23)) = -1.
Proof. xv. Qed.

Lemma XV_minus_tenth : XV (S754_finite true 13421773 (-27)) < 0.
Proof. xv. Qed.

(** A float below 99.5 has a negative exponent. *)
Lemma small_exponent s m e :
  ok (S754_finite s m e) -> IZR (Z.pos m) * bpow e < 99 + 1 / 2 ->
  exists p, e = Z.neg p.
Proof.
  intros [V _] H. destruct e as [|p|p]; [exfalso|exfalso|eauto].
  - pose proof (finite_lt_exp 8388608 (-1) m 0 eq_refl V ltac:(lia)) as K.
    pose proof XV_power_22 as E. cbn [XV] in E. unfold sgn in E. lra.
  - pose proof (finite_lt_exp 8388608 (-1) m (Z.pos p) eq_refl V ltac:(lia))
      as K.
    pose proof XV_power_22 as E. cbn [XV] in E. unfold sgn in E. lra.
Qed.

(** The integer [round] makes of [m * 2^-p]. *)
Lemma half_up_bounds m p k :
  (0 <= k)%Z -> IZR (Z.pos m) * bpow (Z.neg p) < IZR k + 1 / 2 ->
  (0 <= Z.shiftr (Z.pos m + Z.shiftl 1 (Z.pos p - 1)) (Z.pos p) <= k)%Z.
Proof.
  intros Hk Hy.
  assert (0 < 2 ^ Z.pos p)%Z as Hp by (apply Z.pow_pos_nonneg; lia).
  assert (0 < 2 ^ (Z.pos p - 1))%Z as Hq by (apply Z.pow_pos_nonneg; lia).
  assert (2 ^ Z.pos p = 2 * 2 ^ (Z.pos p - 1))%Z as Hpq.
  { rewrite <- Z.pow_succ_r by lia. f_equal. lia. }
  split.
  - apply Z.shiftr_nonneg. rewrite Z.shiftl_mul_pow2 by lia. lia.
  - rewrite Z.shiftr_div_pow2, Z.shiftl_mul_pow2 by lia.
    assert ((Z.pos m + 1 * 2 ^ (Z.pos p - 1)) / 2 ^ Z.pos p < k + 1)%Z; [|lia].
    apply Z.div_lt_upper_bound; [exact Hp|].
    assert (2 * Z.pos m < (2 * k + 1) * 2 ^ Z.pos p)%Z; [|lia].
    apply lt_IZR. rewrite !mult_IZR, plus_IZR, mult_IZR, <- bpow_IZR by lia.
    change (Z.neg p) with (- Z.pos p)%Z in Hy.
    pose proof (bpow_pos (Z.pos p)) as HB.
    replace (IZR (Z.pos m))
      with (IZR (Z.pos m) * bpow (- Z.pos p) * bpow (Z.pos p))
      by (rewrite Rmult_assoc, bpow_mul_opp'; ring).
    nra.
Qed.

Lemma half_up_ge m p k :
  (0 < k)%Z -> IZR k - 1 / 2 <= IZR (Z.pos m) * bpow (Z.neg p) ->
  (k <= Z.shiftr (Z.pos m + Z.shiftl 1 (Z.pos p - 1)) (Z.pos p))%Z.
Proof.
  intros Hk Hy.
  assert (0 < 2 ^ Z.pos p)%Z as Hp by (apply Z.pow_pos_nonneg; lia).
  assert (0 < 2 ^ (Z.pos p - 1))%Z as Hq by (apply Z.pow_pos_nonneg; lia).
  assert (2 ^ Z.pos p = 2 * 2 ^ (Z.pos p - 1))%Z as Hpq.
  { rewrite <- Z.pow_succ_r by lia. f_equal. lia. }
  rewrite Z.shiftr_div_pow2, Z.shiftl_mul_pow2 by lia.
  apply Z.div_le_lower_bound; [exact Hp|].
  assert ((2 * k - 1) * 2 ^ Z.pos p <= 2 * Z.pos m)%Z; [|lia].
  apply le_IZR. rewrite !mult_IZR, minus_IZR, mult_IZR, <- bpow_IZR by lia.
  change (Z.neg p) with (- Z.pos p)%Z in Hy.
  pose proof (bpow_pos (Z.pos p)) as HB.
  replace (IZR (Z.pos m))
    with (IZR (Z.pos m) * bpow (- Z.pos p) * bpow (Z.pos p))
    by (rewrite Rmult_assoc, bpow_mul_opp'; ring).
  nra.
Qed.

(** [round] of a float between -1/2 and 99.5, both excluded: the
    integer [nearest_away] gives, from 0 to 99, as a float. *)
Lemma round_small y :
  ok y -> - (1 / 2) < XV y < 99 + 1 / 2 ->
  (0 <= nearest_away y <= 99)%Z /\
  (B32.round y = B32.of_Z (nearest_away y) \/
   B32.round y = S754_zero true /\ nearest_away y = 0%Z).
Proof.
  intros Oy [Hl Hu]. destruct y as [s|s| |s m e].
  - cbn [nearest_away B32.round]. split; [lia|]. destruct s; auto.
  - exfalso. cbn [XV] in *. pose proof bpow_128_big.
    destruct s; unfold sgn in *; lra.
  - now destruct Oy as [_ []].
  - assert (0 < IZR (Z.pos m)) as Hm by (apply IZR_lt; lia).
    pose proof (bpow_pos e) as Hb.
    assert (0 < IZR (Z.pos m) * bpow e) as Hv by nra.
    cbn [XV] in Hl, Hu. destruct s; unfold sgn in Hl, Hu.
    + assert (exists p, e = Z.neg p) as [p ->]
        by (apply (small_exponent true m e Oy); lra).
      assert (Z.shiftr (Z.pos m + Z.shiftl 1 (Z.pos p - 1)) (Z.pos p) = 0)%Z
        as E.
      { pose proof (half_up_bounds m p 0 ltac:(lia) ltac:(lra)). lia. }
      cbn [nearest_away B32.round]. rewrite E. cbn [Z.opp]. split; [lia|].
      right. split; reflexivity.
    + assert (exists p, e = Z.neg p) as [p ->]
        by (apply (small_exponent false m e Oy); lra).
      cbn [nearest_away B32.round]. split; [|left; reflexivity].
      apply (half_up_bounds m p 99); [lia|lra].
Qed.

(** The digits [dtostrf] gives for [n / 10], for [n] from 0 to 99. *)
Lemma digits_of_tenths n :
  (0 <= n <= 99)%Z ->
  dtostrf (B32.div (B32.of_Z n) c10) 0 1 = fixed_point n 1.
Proof.
  intros Hn.
  assert (forallb
            (fun k => String.eqb
                        (dtostrf (B32.div (B32.of_Z (Z.of_nat k)) c10) 0 1)
                        (fixed_point (Z.of_nat k) 1))
            (seq 0 100) = true) as H by (vm_compute; reflexivity).
  rewrite forallb_forall in H. specialize (H (Z.to_nat n)).
  rewrite Z2Nat.id in H by lia. apply String.eqb_eq, H.
  apply in_seq. lia.
Qed.

(** For a value whose product with 10 lies between -1/2 and 99.5 the
    digits are those of its tenths, three characters. *)
Lemma tenths_digits v :
  ok v -> - (1 / 2) < XV (B32.mul v c10) < 99 + 1 / 2 ->
  (0 <= tenths v <= 99)%Z /\
  outstr (dtostrf (round_tenths v) 0 1) = Some (fixed_point (tenths v) 1).
Proof.
  intros Ov H.
  assert (ok (B32.mul v c10)) as Oy
    by (apply (mul_r_rounds false 10485760 (-20) eq_refl ltac:(lia)), Ov).
  destruct (round_small _ Oy H) as [Hn Hr].
  unfold tenths, round_tenths. change (B32.of_Z 10) with c10.
  split; [exact Hn|].
  assert (dtostrf (B32.div (B32.round (B32.mul v c10)) c10) 0 1 =
          fixed_point (nearest_away (B32.mul v c10)) 1) as ->.
  { destruct Hr as [-> | [-> ->]]; [now apply digits_of_tenths|reflexivity]. }
  unfold outstr. rewrite fixed_point_length_eq by lia. reflexivity.
Qed.

(** [round] takes a value of at most -1/2 to at most -1. *)
Lemma round_le_m1 y : ok y -> XV y <= -1 + 1 / 2 -> XV (B32.round y) <= -1.
Proof.
  intros Oy Hy. destruct y as [s|s| |s m e].
  - cbn [XV] in Hy. lra.
  - cbn [B32.round XV] in *. pose proof bpow_128_big.
    destruct s; unfold sgn in *; lra.
  - now destruct Oy as [_ []].
  - assert (0 < IZR (Z.pos m)) as Hm by (apply IZR_lt; lia).
    pose proof (bpow_pos e) as Hb.
    assert (0 < IZR (Z.pos m) * bpow e) as Hv by nra.
    cbn [XV] in Hy. destruct s; unfold sgn in Hy; [|lra].
    assert (forall z : Z, (1 <= z)%Z -> - IZR z <= -1) as Hint.
    { intros z Hz. apply IZR_le in Hz. lra. }
    destruct e as [|p|p].
    + cbn [B32.round XV]. unfold sgn. rewrite bpow_0, Rmult_1_r.
      assert (- IZR (Z.pos m) <= -1) by (apply Hint; lia). lra.
    + cbn [B32.round XV]. unfold sgn. rewrite bpow_IZR, <- mult_IZR by lia.
      assert (- IZR (Z.pos m * 2 ^ Z.pos p) <= -1); [|lra].
      apply Hint. pose proof (Z.pow_pos_nonneg 2 (Z.pos p)). nia.
    + cbn [B32.round].
      set (n := Z.shiftr (Z.pos m + Z.shiftl 1 (Z.pos p - 1)) (Z.pos p)).
      assert (1 <= n)%Z as Hn by (apply (half_up_ge m p 1); [lia|lra]).
      destruct (binary_normalize_spec (- n) 0 true) as [_ Sn].
      rewrite bpow_0, Rmult_1_r in Sn.
      pose proof (valid_SRounds true 8388608 (-23) eq_refl) as S1.
      rewrite XV_minus_1 in S1.
      apply (SRounds_mono _ _ _ _ Sn S1). rewrite opp_IZR. now apply Hint.
Qed.

(** The product with 10 of a magnitude up to [one_digit_max], and of a
    day total from just above [minus_half_tenth] to [one_digit_max]. *)
Lemma dial_product_range x :
  ok x -> ord (B32.fabs x) one_digit_max ->
  - (1 / 2) < XV (B32.mul (B32.fabs x) c10) < 99 + 1 / 2.
Proof.
  intros Ox H. pose proof H as (Oa & _ & _).
  assert (ord (S754_zero false) (B32.fabs x)) as H0.
  { split; [split; [reflexivity|discriminate]|]. split; [exact Oa|].
    rewrite XV_fabs. cbn [XV]. apply Rabs_pos. }
  apply mul_10_mono in H, H0.
  destruct H as (_ & _ & H). destruct H0 as (_ & _ & H0).
  change (B32.mul one_digit_max c10)
    with (S754_finite false 13041662 (-17)) in H.
  change (B32.mul (S754_zero false) c10) with (S754_zero false) in H0.
  cbn [XV] in H0. pose proof XV_below_half. lra.
Qed.

Lemma day_product_range d :
  ord (S754_finite true 13421772 (-28)) d -> ord d one_digit_max ->
  - (1 / 2) < XV (B32.mul d c10) < 99 + 1 / 2.
Proof.
  intros H0 H. apply mul_10_mono in H, H0.
  destruct H as (_ & _ & H). destruct H0 as (_ & _ & H0).
  change (B32.mul one_digit_max c10)
    with (S754_finite false 13041662 (-17)) in H.
  change (B32.mul (S754_finite true 13421772 (-28)) c10)
    with (S754_finite true 16777215 (-25)) in H0.
  pose proof XV_below_half. pose proof XV_near_half. lra.
Qed.

(** From the float after [one_digit_max] on the digits are four or more,
    and so are they from [minus_half_tenth] down. *)
Lemma shown_long v :
  ord (S754_finite false 10433331 (-20)) v ->
  B32.is_finite (round_tenths v) = true ->
  outstr (dtostrf (round_tenths v) 0 1) = None.
Proof.
  intros H F.
  apply (round_tenths_ge _ _ 100 13107200 (-17) ltac:(lia) eq_refl XV_100) in H;
    [|exact XV_half].
  destruct H as (_ & _ & Hr).
  change (B32.div (S754_finite false 13107200 (-17)) c10) with c10 in Hr.
  unfold c10 in Hr. rewrite XV_10 in Hr.
  pose proof (dtostrf_length_4 _ F Hr) as L. unfold outstr.
  destruct (Nat.leb_spec (String.length (dtostrf (round_tenths v) 0 1)) 3);
    [lia|reflexivity].
Qed.

Lemma shown_negative v :
  ord v (S754_finite true 13421773 (-28)) ->
  B32.is_finite (round_tenths v) = true ->
  outstr (dtostrf (round_tenths v) 0 1) = None.
Proof.
  intros H F. pose proof H as (Ov & _ & _).
  apply mul_10_mono in H. destruct H as (Oy & _ & H).
  change (B32.mul (S754_finite true 13421773 (-28)) c10)
    with (S754_finite true 8388608 (-24)) in H.
  pose proof XV_minus_half as K.
  assert (ord (B32.round (B32.mul v c10)) (S754_finite true 8388608 (-23)))
    as H1.
  { split; [now apply round_ok|]. split; [split; [reflexivity|discriminate]|].
    rewrite XV_minus_1. apply round_le_m1; [exact Oy|lra]. }
  apply div_10_mono in H1. destruct H1 as (_ & _ & H1).
  change (B32.div (S754_finite true 8388608 (-23)) c10)
    with (S754_finite true 13421773 (-27)) in H1.
  pose proof XV_minus_tenth as K1.
  fold c10 in H1. change (B32.div (B32.round (B32.mul v c10)) c10)
    with (round_tenths v) in H1.
  destruct (round_tenths v) as [s|s| |s m e]; try discriminate.
  - change (XV (S754_zero s)) with 0 in H1. lra.
  - assert (s = true) as ->.
    { destruct s; [reflexivity|]. pose proof (finite_pos m e). lra. }
    pose proof (dtostrf_length_neg m e) as L. unfold outstr.
    destruct (Nat.leb_spec
                (String.length (dtostrf (S754_finite true m e) 0 1)) 3);
      [lia|reflexivity].
Qed.

End TenthsFacts.

(** * The claims *)



(** C2, as stated, fails: a call with the four-character timestamp
    "2001" returns normally, replaces the stored day key "200101" by
    "2001" and restarts the day total, which was 1.0, from 0. *)
Lemma short_timestamp_runs_day_logic :
  (String.length (timestamp call_short) < 6)%nat /\
  lastTimestamp (run [call_a; call_b] (initial nobody)) = "200102" /\
  dayUsage (run [call_a; call_b] (initial nobody)) = B32.of_Z 1 /\
  lastTimestamp (run [call_a; call_b; call_short] (initial nobody)) = "2001" /\
  dayUsage (run [call_a; call_b; call_short] (initial nobody)) = B32.of_Z 0.
Proof.
  split; [cbn; lia|]. repeat split; vm_compute; reflexivity.
Qed.

(** C2, amended. For a timestamp shorter than 6 characters
    [updateUsage] has no failure path: [substring] clips to the length,
    the whole timestamp becomes the day key, and the day-boundary logic
    runs on it as on any other key, restarting the day total when the
    key differs from the stored one. *)
Theorem short_timestamp_is_day_key
  (ts : string) (d1 d2 r1 r2 : float) (g : globals) :
  (String.length ts < 6)%nat ->
  substring 0 6 ts = ts /\
  lastTimestamp (updateUsage ts d1 d2 r1 r2 g) = ts /\
  dayUsage (updateUsage ts d1 d2 r1 r2 g) =
    (let start := if equals (lastTimestamp g) ts then dayUsage g
                  else B32.of_Z 0 in
     if B32.geb (lastDelivered g) (B32.of_Z 0)
     then B32.add start (delta d1 d2 r1 r2 g) else start).
Proof.
  intros Hl. pose proof (UsageFacts.substring_short ts Hl) as E.
  split; [exact E|].
  unfold updateUsage, delta. cbn [lastTimestamp dayUsage]. rewrite E.
  unfold equals.
  destruct (String.eqb_spec (lastTimestamp g) ts) as [K|K]; cbn [negb]; auto.
Qed.

Lemma short_timestamp_is_day_key_witness :
  lastTimestamp (updateUsage "2001" (B32.of_Z 5) (B32.of_Z 0) (B32.of_Z 0)
                   (B32.of_Z 0) (initial nobody)) = "2001".
Proof.
  apply (short_timestamp_is_day_key "2001" (B32.of_Z 5) (B32.of_Z 0)
           (B32.of_Z 0) (B32.of_Z 0) (initial nobody)).
  cbn. lia.
Defined.

(** C3, as stated, fails: after a reading of 5.0 delivered on one day,
    a reading of 6.5 delivered and 0.5 returned on the next day leaves
    the day total at 1.0, not at 0. *)
Lemma day_change_total_not_zero :
  substring 0 6 (timestamp call_a) <> substring 0 6 (timestamp call_b) /\
  dayUsage (run [call_a; call_b] (initial nobody)) = B32.of_Z 1 /\
  B32.of_Z 1 <> B32.of_Z 0.
Proof.
  split; [|split]; vm_compute; [discriminate|reflexivity|discriminate].
Qed.

(** C3, amended. When the date prefix changes between two consecutive
    calls, the later call starts the day total again from 0 and then
    adds its own difference: the new total is 0 plus that difference (0
    alone while the baseline is not counted), whatever the total was
    before, and the stored day key is the new prefix. *)
Theorem day_change_restarts_total
  (ts1 ts2 : string) (a1 a2 a3 a4 b1 b2 b3 b4 : float) (g : globals) :
  substring 0 6 ts1 <> substring 0 6 ts2 ->
  let g1 := updateUsage ts1 a1 a2 a3 a4 g in
  let g2 := updateUsage ts2 b1 b2 b3 b4 g1 in
  lastTimestamp g2 = substring 0 6 ts2 /\
  dayUsage g2 =
    if B32.geb (B32.add a1 a2) (B32.of_Z 0)
    then B32.add (B32.of_Z 0)
           (B32.sub (B32.sub (B32.add b1 b2) (B32.add a1 a2))
                    (B32.sub (B32.add b3 b4) (B32.add a3 a4)))
    else B32.of_Z 0.
Proof.
  intros Hne g1 g2.
  assert (lastTimestamp g1 = substring 0 6 ts1) as E1.
  { unfold g1, updateUsage. cbn [lastTimestamp]. unfold equals.
    destruct (String.eqb_spec (lastTimestamp g) (substring 0 6 ts1)) as [E|E];
      cbn; auto. }
  assert (equals (lastTimestamp g1) (substring 0 6 ts2) = false) as E2.
  { rewrite E1. unfold equals. now apply String.eqb_neq. }
  unfold g2, updateUsage at 1 2. cbn [lastTimestamp dayUsage].
  rewrite E2. cbn [negb]. split; [reflexivity|].
  unfold g1, updateUsage. cbn [lastDelivered lastReturned].
  destruct (B32.geb (B32.add a1 a2) (B32.of_Z 0)); reflexivity.
Qed.

Lemma day_change_restarts_total_witness :
  dayUsage (updateUsage (timestamp call_b) (del1 call_b) (del2 call_b)
              (ret1 call_b) (ret2 call_b)
              (updateUsage (timestamp call_a) (del1 call_a) (del2 call_a)
                 (ret1 call_a) (ret2 call_a) (initial nobody)))
  = B32.of_Z 1.
Proof.
  pose proof (day_change_restarts_total (timestamp call_a) (timestamp call_b)
    (del1 call_a) (del2 call_a) (ret1 call_a) (ret2 call_a)
    (del1 call_b) (del2 call_b) (ret1 call_b) (ret2 call_b) (initial nobody)
    ltac:(vm_compute; discriminate)) as [_ H].
  rewrite H. reflexivity.
Defined.

(** C4. The first call after start-up, while the baseline still holds
    its start value, leaves the day total at 0 whatever the timestamp and
    the registers are: it records the register sums as the new baseline
    and applies no difference. *)
Theorem first_update_sets_baseline
  (ts : string) (d1 d2 r1 r2 : float) (g : globals) :
  lastDelivered g = sentinel ->
  dayUsage g = B32.of_Z 0 ->
  dayUsage (updateUsage ts d1 d2 r1 r2 g) = B32.of_Z 0 /\
  lastDelivered (updateUsage ts d1 d2 r1 r2 g) = B32.add d1 d2 /\
  lastReturned (updateUsage ts d1 d2 r1 r2 g) = B32.add r1 r2.
Proof.
  intros Hs H0. unfold updateUsage. cbn [dayUsage lastDelivered lastReturned].
  rewrite Hs, H0. change (B32.geb sentinel (B32.of_Z 0)) with false.
  destruct (negb _); auto.
Qed.

Lemma first_update_sets_baseline_witness :
  dayUsage (updateUsage "200101120000W" (B32.of_ratio 12345 1000)
              (B32.of_Z 7) (B32.of_Z 1) (B32.of_ratio 5 10) (initial nobody))
  = B32.of_Z 0.
Proof.
  apply (first_update_sets_baseline "200101120000W" (B32.of_ratio 12345 1000)
           (B32.of_Z 7) (B32.of_Z 1) (B32.of_ratio 5 10) (initial nobody));
    reflexivity.
Defined.

(** C5. Once the baseline is set and the day key is unchanged, a call
    adds to the day total exactly the difference of the delivered sum
    with its baseline minus the difference of the returned sum with its
    baseline.  From a baseline of 5.0 delivered and 0.0 returned, sums of
    6.5 and 0.5 add exactly 1.0. *)
Theorem update_adds_delta (c : WiFiClient) (calls : list call)
  (ts : string) (d1 d2 r1 r2 : float) :
  let g := run calls (initial c) in
  forallb from_meter calls = true ->
  lastDelivered g <> sentinel ->
  equals (lastTimestamp g) (substring 0 6 ts) = true ->
  dayUsage (updateUsage ts d1 d2 r1 r2 g) =
    B32.add (dayUsage g)
      (B32.sub (B32.sub (B32.add d1 d2) (lastDelivered g))
               (B32.sub (B32.add r1 r2) (lastReturned g))) /\
  (lastDelivered g = B32.of_Z 5 -> lastReturned g = B32.of_Z 0 ->
   B32.add d1 d2 = B32.of_ratio 65 10 -> B32.add r1 r2 = B32.of_ratio 5 10 ->
   dayUsage (updateUsage ts d1 d2 r1 r2 g) = B32.add (dayUsage g) (B32.of_Z 1)).
Proof.
  intros g Hc Hs Hk.
  pose proof (UsageFacts.baseline_inv_run calls (initial c) Hc
                (UsageFacts.baseline_inv_initial c)) as [[Hd _]|[Hd _]];
    [contradiction|].
  fold g in Hd.
  assert (dayUsage (updateUsage ts d1 d2 r1 r2 g) =
          B32.add (dayUsage g)
            (B32.sub (B32.sub (B32.add d1 d2) (lastDelivered g))
                     (B32.sub (B32.add r1 r2) (lastReturned g)))) as E.
  { unfold updateUsage. cbn [dayUsage].
    rewrite Hk, (SignFacts.nonneg_geb _ Hd). reflexivity. }
  split; [exact E|].
  intros H5 H0 H65 H05. rewrite E, H5, H0, H65, H05. reflexivity.
Qed.

Lemma update_adds_delta_witness :
  dayUsage (updateUsage "200101121000W" (B32.of_ratio 65 10) (B32.of_Z 0)
              (B32.of_ratio 5 10) (B32.of_Z 0) (run [call_a] (initial nobody)))
  = B32.of_Z 1.
Proof.
  pose proof (update_adds_delta nobody [call_a] "200101121000W"
    (B32.of_ratio 65 10) (B32.of_Z 0) (B32.of_ratio 5 10) (B32.of_Z 0)
    eq_refl ltac:(vm_compute; discriminate) eq_refl) as [_ H].
  rewrite H by reflexivity. reflexivity.
Defined.

(** C6, as stated, fails: for a power of 1 the expression is -37.5 and
    the angle stored is -37. *)
Lemma dial_angle_not_formula :
  dial_expr (B32.of_Z 1) = B32.of_ratio (-75) 2 /\
  dial_angle (B32.of_Z 1) = Some (-37) /\
  B32.of_Z (-37) <> B32.of_ratio (-75) 2.
Proof.
  split; [reflexivity|]. split; [reflexivity|]. vm_compute. discriminate.
Qed.

(** C6, amended. The angle is the binary32 value of
    -90 + ((netPower + 6) / 24) * 180 with its fractional part discarded,
    defined when that integer fits [int16_t]; nothing clamps it to
    [-90, 90].  A power of 0 gives -45, 18 gives 90, -6 gives -90, and 30
    gives 180. *)
Theorem dial_angle_truncates :
  (forall (x : float) (a : Z),
      dial_angle x = Some a ->
      trunc_of a (XV (dial_expr x)) /\ -32768 <= a <= 32767) /\
  dial_angle (B32.of_Z 0) = Some (-45) /\
  dial_angle (B32.of_Z 18) = Some 90 /\
  dial_angle (B32.of_Z (-6)) = Some (-90) /\
  dial_angle (B32.of_Z 30) = Some 180.
Proof.
  split; [|repeat split; reflexivity].
  intros x a H. now apply to_int16_spec.
Qed.

Lemma dial_angle_truncates_witness :
  trunc_of (-37) (XV (dial_expr (B32.of_Z 1))).
Proof.
  apply (proj1 dial_angle_truncates (B32.of_Z 1) (-37)). reflexivity.
Defined.

(** C7, as stated, fails: the float nearest to 0.35 lies below 0.35 and
    rounds to 0.3, but its product with 10 is the float 3.5, which
    [round] takes to 4: the text is 0.4. *)
Lemma dial_text_not_rounded_once :
  text_spec (B32.of_ratio 35 100) = "0.3kW" /\
  dial_text (B32.of_ratio 35 100) = Some "0.4kW" /\
  dial_text (B32.of_ratio 35 100) <> Some (text_spec (B32.of_ratio 35 100)).
Proof.
  split; [vm_compute; reflexivity|]. split; [vm_compute; reflexivity|].
  vm_compute. discriminate.
Qed.

(** C7, amended. For a power of magnitude up to [one_digit_max] the text
    is the number of tenths the code makes of the magnitude (its
    binary32 product with 10, rounded to the nearest integer, halfway
    cases away from zero), from 0 to 99, written as a digit, a point and
    a digit, followed by the unit; no blank is inserted. *)
Theorem dial_text_tenths (x : float) :
  B32.is_float x = true ->
  B32.leb (B32.fabs x) one_digit_max = true ->
  0 <= tenths (B32.fabs x) <= 99 /\
  dial_text x = Some (fixed_point (tenths (B32.fabs x)) 1 ++ "kW") /\
  String.length (fixed_point (tenths (B32.fabs x)) 1) = 3%nat.
Proof.
  intros Vx L.
  assert (x <> S754_nan) as Nx by (intros ->; discriminate L).
  assert (ok x) as Ox by (split; assumption).
  pose proof (fabs_ok x Ox) as Oa.
  apply (leb_XV _ one_digit_max (proj1 Oa) eq_refl) in L.
  destruct (TenthsFacts.tenths_digits _ Oa
              (TenthsFacts.dial_product_range x Ox L)) as [Hn E].
  split; [exact Hn|]. split.
  - rewrite (PadFacts.dial_text_digits x Vx), E. reflexivity.
  - apply CursorFacts.fixed_point_length_eq. lia.
Qed.

Lemma dial_text_tenths_witness :
  tenths (B32.fabs (B32.of_ratio (-123) 100)) = 12 /\
  dial_text (B32.of_ratio (-123) 100) = Some "1.2kW".
Proof.
  destruct (dial_text_tenths (B32.of_ratio (-123) 100) eq_refl eq_refl)
    as (_ & E & _).
  split; [vm_compute; reflexivity|]. rewrite E. vm_compute. reflexivity.
Defined.

(** C8. Without a connected consumer [sendTelegram] changes nothing:
    no byte is written and every global keeps its value. *)
Theorem sendTelegram_no_consumer (raw : string) (g : globals) :
  connected (RemoteClient g) = false -> sendTelegram raw g = g.
Proof.
  intros Hc. unfold sendTelegram. now rewrite Hc.
Qed.

Lemma sendTelegram_no_consumer_witness :
  sendTelegram "1-3:0.2.8(50)" (initial nobody) = initial nobody.
Proof.
  apply (sendTelegram_no_consumer "1-3:0.2.8(50)" (initial nobody)).
  reflexivity.
Defined.

(** C9. After start-up and after any sequence of [updateUsage] calls on
    meter registers, [lastDelivered] holds the start value [-1] exactly
    when [lastReturned] does; and whenever the guard [lastDelivered >= 0]
    lets the difference through, [lastReturned] is a register sum too. *)
Theorem baselines_set_together (c : WiFiClient) (calls : list call) :
  forallb from_meter calls = true ->
  (lastDelivered (run calls (initial c)) = sentinel <->
   lastReturned (run calls (initial c)) = sentinel) /\
  (B32.geb (lastDelivered (run calls (initial c))) (B32.of_Z 0) = true ->
   lastReturned (run calls (initial c)) <> sentinel).
Proof.
  intros Hc.
  pose proof (UsageFacts.baseline_inv_run calls (initial c) Hc
                (UsageFacts.baseline_inv_initial c)) as [[Hd Hr]|[Hd Hr]].
  - rewrite Hd, Hr. split; [tauto|]. intros H. vm_compute in H. discriminate.
  - apply SignFacts.nonneg_not_minus_one in Hd, Hr. unfold sentinel. tauto.
Qed.

Lemma baselines_set_together_witness :
  lastDelivered (run [call_a] (initial nobody)) = sentinel <->
  lastReturned (run [call_a] (initial nobody)) = sentinel.
Proof.
  apply (baselines_set_together nobody [call_a]). reflexivity.
Defined.

(** C10, as stated, fails: 0 is below 5000, the angle of 0 is -45, and
    5000 has no angle: the expression, 37455, does not fit [int16_t]. *)
Lemma dial_angle_not_everywhere :
  B32.leb (B32.of_Z 0) (B32.of_Z 5000) = true /\
  dial_angle (B32.of_Z 0) = Some (-45) /\
  dial_angle (B32.of_Z 5000) = None /\
  ~ (exists a b, dial_angle (B32.of_Z 0) = Some a /\
                 dial_angle (B32.of_Z 5000) = Some b /\ a <= b).
Proof.
  split; [reflexivity|]. split; [reflexivity|]. split; [reflexivity|].
  intros (a & b & _ & H & _). discriminate H.
Qed.

(** C10, amended. The dial angle is monotone in the power wherever it
    is defined: for floats [x <= y] whose angles both fit [int16_t], the
    angle of [x] is at most that of [y]. *)
Theorem dial_angle_monotone (x y : float) (a b : Z) :
  B32.is_float x = true -> B32.is_float y = true ->
  B32.leb x y = true ->
  dial_angle x = Some a -> dial_angle y = Some b ->
  a <= b.
Proof.
  intros Vx Vy Hle Ha Hb.
  pose proof (leb_XV x y Vx Vy Hle) as Hord.
  apply dial_expr_mono in Hord. destruct Hord as (_ & _ & Hv).
  apply to_int16_spec in Ha as [Ha _]. apply to_int16_spec in Hb as [Hb _].
  exact (trunc_of_mono _ _ _ _ Ha Hb Hv).
Qed.

Lemma dial_angle_monotone_witness :
  dial_angle (B32.of_ratio 1 3) = Some (-42) /\
  dial_angle (B32.of_ratio 7 2) = Some (-18) /\
  -42 <= -18.
Proof.
  split; [reflexivity|]. split; [reflexivity|].
  apply (dial_angle_monotone (B32.of_ratio 1 3) (B32.of_ratio 7 2));
    reflexivity.
Defined.

(** * Further properties of the sketch *)

Module DialFacts.
Local Open Scope R_scope.

Lemma trunc_defined x :
  ok x -> - bpow 128 < XV x < bpow 128 -> exists z, B32.trunc x = Some z.
Proof.
  intros Ox Hx. pose proof (bpow_pos 128).
  destruct x as [s|s| |s m e]; cbn [B32.trunc]; eauto.
  - cbn [XV] in Hx. destruct s; unfold sgn in Hx; lra.
  - now destruct Ox as [_ []].
Qed.

Lemma trunc_finite x z :
  ok x -> B32.trunc x = Some z -> - bpow 128 < XV x < bpow 128.
Proof.
  intros Ox H. pose proof (bpow_pos 128).
  destruct x as [s|s| |s m e]; cbn [B32.trunc] in H; try discriminate.
  - cbn [XV]. lra.
  - apply (finite_range _ _ _ Ox).
Qed.

Lemma to_int16_trunc x z : B32.to_int16 x = Some z -> B32.trunc x = Some z.
Proof.
  unfold B32.to_int16. destruct (B32.trunc x) as [t|]; [|discriminate].
  destruct (_ && _); [|discriminate]. now intros [= <-].
Qed.

(** Between two powers with a defined angle the angle is defined and
    lies between theirs. *)
Lemma dial_angle_between lo hi x a b :
  ord lo x -> ord x hi ->
  dial_angle lo = Some a -> dial_angle hi = Some b ->
  exists z, dial_angle x = Some z /\ (a <= z <= b)%Z.
Proof.
  intros Hlo Hhi Ha Hb. unfold dial_angle in *.
  apply dial_expr_mono in Hlo, Hhi.
  destruct Hlo as (Ol & Ox & Hl). destruct Hhi as (_ & Oh & Hh).
  pose proof (to_int16_spec _ _ Ha) as [Ta Ra].
  pose proof (to_int16_spec _ _ Hb) as [Tb Rb].
  pose proof (trunc_finite _ _ Ol (to_int16_trunc _ _ Ha)) as Fl.
  pose proof (trunc_finite _ _ Oh (to_int16_trunc _ _ Hb)) as Fh.
  destruct (trunc_defined (dial_expr x) Ox ltac:(lra)) as [z Hz].
  pose proof (trunc_spec _ _ Hz) as Tz.
  pose proof (trunc_of_mono _ _ _ _ Ta Tz Hl) as Haz.
  pose proof (trunc_of_mono _ _ _ _ Tz Tb Hh) as Hzb.
  exists z. split; [|lia].
  unfold B32.to_int16. rewrite Hz.
  replace ((-32768 <=? z)%Z && (z <=? 32767)%Z) with true; [reflexivity|].
  symmetry. apply andb_true_iff. split; apply Z.leb_le; lia.
Qed.

(** Beyond 4376, and beyond -4364, no angle is defined. *)
Lemma above_range x a :
  ord (B32.of_Z 4376) x -> dial_angle x = Some a -> False.
Proof.
  intros H Ha. apply dial_expr_mono in H. destruct H as (_ & _ & H).
  assert (B32.trunc (dial_expr (B32.of_Z 4376)) = Some 32775%Z) as T
    by reflexivity.
  apply trunc_spec in T. destruct T as [T1 T2].
  apply to_int16_spec in Ha. destruct Ha as [[A1 A2] Ra].
  assert (IZR a <= 32767) by (apply IZR_le; lia).
  destruct (Rle_lt_dec 0 (XV (dial_expr (B32.of_Z 4376)))) as [P|P].
  - specialize (T1 P). specialize (A1 ltac:(lra)). lra.
  - specialize (T2 ltac:(lra)). lra.
Qed.

Lemma below_range x a :
  ord x (B32.of_Z (-4364)) -> dial_angle x = Some a -> False.
Proof.
  intros H Ha. apply dial_expr_mono in H. destruct H as (_ & _ & H).
  assert (B32.trunc (dial_expr (B32.of_Z (-4364))) = Some (-32775)%Z) as T
    by reflexivity.
  apply trunc_spec in T. destruct T as [T1 T2].
  apply to_int16_spec in Ha. destruct Ha as [[A1 A2] Ra].
  assert (-32768 <= IZR a) by (apply IZR_le; lia).
  destruct (Rle_lt_dec (XV (dial_expr (B32.of_Z (-4364)))) 0) as [P|P].
  - specialize (T2 P). specialize (A2 ltac:(lra)). lra.
  - specialize (T1 ltac:(lra)). lra.
Qed.

End DialFacts.

(** X1. Within the calibrated range, from -6 to 18, the needle angle is
    defined and lies between -90 and 90. *)
Theorem dial_angle_calibrated (x : float) :
  B32.is_float x = true ->
  B32.leb (B32.of_Z (- MAX_POWER_RETURN)) x = true ->
  B32.leb x (B32.of_Z MAX_POWER_CONSUMPTION) = true ->
  exists a, dial_angle x = Some a /\ -90 <= a <= 90.
Proof.
  intros Vx Hlo Hhi.
  apply (DialFacts.dial_angle_between
           (B32.of_Z (- MAX_POWER_RETURN)) (B32.of_Z MAX_POWER_CONSUMPTION)).
  - now apply leb_XV.
  - now apply leb_XV.
  - reflexivity.
  - reflexivity.
Qed.

Lemma dial_angle_calibrated_witness :
  exists a, dial_angle (B32.of_ratio 123 10) = Some a /\ -90 <= a <= 90.
Proof.
  apply (dial_angle_calibrated (B32.of_ratio 123 10)); reflexivity.
Defined.

(** X2. The angle is defined for every power from -4363 to 4375, and lies
    between -32767 and 32767. *)
Theorem dial_angle_defined (x : float) :
  B32.is_float x = true ->
  B32.leb (B32.of_Z (-4363)) x = true ->
  B32.leb x (B32.of_Z 4375) = true ->
  exists a, dial_angle x = Some a /\ -32767 <= a <= 32767.
Proof.
  intros Vx Hlo Hhi.
  apply (DialFacts.dial_angle_between (B32.of_Z (-4363)) (B32.of_Z 4375)).
  - now apply leb_XV.
  - now apply leb_XV.
  - reflexivity.
  - reflexivity.
Qed.

Lemma dial_angle_defined_witness :
  exists a, dial_angle (B32.of_Z 4000) = Some a /\ -32767 <= a <= 32767.
Proof. apply (dial_angle_defined (B32.of_Z 4000)); reflexivity. Defined.

(** X3. From 4376 up and from -4364 down the angle does not fit
    [int16_t], and [setCurrentValue] is not defined; nor is it for a
    NaN. *)
Theorem setCurrentValue_undefined (x : float) (g : globals) :
  B32.is_float x = true ->
  B32.leb (B32.of_Z 4376) x = true \/ B32.leb x (B32.of_Z (-4364)) = true \/
  x = S754_nan ->
  setCurrentValue x g = None.
Proof.
  intros Vx H. unfold setCurrentValue.
  destruct (dial_angle x) as [a|] eqn:Ha; [exfalso|reflexivity].
  destruct H as [H|[H| ->]].
  - apply (leb_XV (B32.of_Z 4376) x eq_refl Vx) in H.
    now apply (DialFacts.above_range x a).
  - apply (leb_XV x (B32.of_Z (-4364)) Vx eq_refl) in H.
    now apply (DialFacts.below_range x a).
  - discriminate Ha.
Qed.

Lemma setCurrentValue_undefined_witness :
  setCurrentValue (B32.of_Z 5000) (initial nobody) = None.
Proof.
  apply (setCurrentValue_undefined (B32.of_Z 5000) (initial nobody) eq_refl).
  left. reflexivity.
Defined.

(** X4. From the float after [one_digit_max] on, 9.94999981..., the
    digits of the magnitude need more than the 3 characters that fit
    [outstr]: while the rounded magnitude is finite, no text is
    determined. *)
Theorem dial_text_overflows (x : float) :
  B32.is_float x = true ->
  B32.leb (B32.fabs x) one_digit_max = false ->
  B32.is_finite (round_tenths (B32.fabs x)) = true ->
  dial_text x = None.
Proof.
  intros Vx L F.
  assert (x <> S754_nan) as Nx by (intros ->; discriminate F).
  assert (ok x) as Ox by (split; assumption).
  pose proof (fabs_ok x Ox) as [Va Na].
  apply (CursorFacts.leb_next _ Na) in L.
  apply (leb_XV (S754_finite false 10433331 (-20)) _ eq_refl Va) in L.
  rewrite (PadFacts.dial_text_digits x Vx).
  now rewrite (TenthsFacts.shown_long _ L F).
Qed.

Lemma dial_text_overflows_witness :
  dial_text (B32.of_ratio 996 100) = None.
Proof.
  apply (dial_text_overflows (B32.of_ratio 996 100) eq_refl eq_refl eq_refl).
Defined.

(** X5. The day text, while the rounded total is finite: for a total
    above [minus_half_tenth], -0.05, and up to [one_digit_max] it is the
    total's number of tenths, from 0 to 99, as a digit, a point and a
    digit, followed by the unit; for every other total, the negative
    ones from -0.05 down among them, the digits do not fit [outstr] and
    no text is determined. *)
Theorem day_text_cases (d : float) :
  B32.is_float d = true ->
  B32.is_finite (round_tenths d) = true ->
  day_text d =
    if B32.leb d one_digit_max && negb (B32.leb d minus_half_tenth)
    then Some (fixed_point (tenths d) 1 ++ "kW")
    else None.
Proof.
  intros Vd F.
  assert (d <> S754_nan) as Nd by (intros ->; discriminate F).
  rewrite (PadFacts.day_text_digits d Vd).
  destruct (B32.leb d minus_half_tenth) eqn:L2.
  - rewrite andb_false_r.
    apply (leb_XV d minus_half_tenth Vd eq_refl) in L2.
    now rewrite (TenthsFacts.shown_negative d L2 F).
  - rewrite andb_true_r. destruct (B32.leb d one_digit_max) eqn:L1.
    + apply (CursorFacts.leb_succ_neg 13421772 (-28) d Nd) in L2.
      apply (leb_XV (S754_finite true 13421772 (-28)) d eq_refl Vd) in L2.
      apply (leb_XV d one_digit_max Vd eq_refl) in L1.
      destruct (TenthsFacts.tenths_digits d (proj1 L1)
                  (TenthsFacts.day_product_range d L2 L1)) as [_ E].
      now rewrite E.
    + apply (CursorFacts.leb_next d Nd) in L1.
      apply (leb_XV (S754_finite false 10433331 (-20)) d eq_refl Vd) in L1.
      now rewrite (TenthsFacts.shown_long d L1 F).
Qed.

Lemma day_text_cases_witness :
  day_text (B32.of_ratio 123 100) = Some "1.2kW" /\
  day_text (B32.of_ratio (-123) 100) = None /\
  day_text (B32.of_Z 10) = None.
Proof.
  rewrite (day_text_cases (B32.of_ratio 123 100) eq_refl eq_refl).
  rewrite (day_text_cases (B32.of_ratio (-123) 100) eq_refl eq_refl).
  rewrite (day_text_cases (B32.of_Z 10) eq_refl eq_refl).
  split; [vm_compute; reflexivity|]. split; reflexivity.
Defined.

Module RelayFacts.





End RelayFacts.


Module KeyFacts.

Lemma take_min n s :
  string_take (Nat.min n (String.length s)) s = string_take n s.
Proof.
  revert s. induction n as [|n IH]; intros s; [reflexivity|].
  destruct s as [|c s]; [reflexivity|].
  cbn [String.length]. rewrite <- Nat.succ_min_distr. cbn [string_take].
  f_equal. apply IH.
Qed.

Lemma substring_0 n s : substring 0 n s = string_take n s.
Proof.
  unfold substring. cbn [Nat.min Nat.max]. rewrite Nat.sub_0_r.
  destruct s as [|c s]; [destruct n; reflexivity|].
  change (Nat.leb (String.length (String c s)) 0) with false.
  cbn [string_drop]. apply take_min.
Qed.

Lemma take_drop n s : string_take n s ++ string_drop n s = s.
Proof.
  revert s. induction n as [|n IH]; intros s; [reflexivity|].
  destruct s as [|c s]; [reflexivity|]. cbn. now rewrite IH.
Qed.

Lemma length_take n s :
  String.length (string_take n s) = Nat.min n (String.length s).
Proof.
  revert s. induction n as [|n IH]; intros s; [reflexivity|].
  destruct s as [|c s]; [reflexivity|]. cbn. now rewrite IH.
Qed.

Lemma lastTimestamp_update ts d1 d2 r1 r2 g :
  lastTimestamp (updateUsage ts d1 d2 r1 r2 g) = substring 0 6 ts.
Proof.
  unfold updateUsage. cbn [lastTimestamp]. unfold equals.
  destruct (String.eqb_spec (lastTimestamp g) (substring 0 6 ts)) as [E|E];
    cbn [negb]; auto.
Qed.

End KeyFacts.

(** X7. After every call the stored day key is the beginning of the
    call's timestamp, six characters long or the whole timestamp when
    that is shorter. *)
Theorem day_key_is_prefix (ts : string) (d1 d2 r1 r2 : float) (g : globals) :
  let key := lastTimestamp (updateUsage ts d1 d2 r1 r2 g) in
  ts = key ++ string_drop 6 ts /\
  String.length key = Nat.min 6 (String.length ts).
Proof.
  cbv zeta. rewrite KeyFacts.lastTimestamp_update, KeyFacts.substring_0.
  split; [symmetry; apply KeyFacts.take_drop|apply KeyFacts.length_take].
Qed.

Module SyncFacts.

Lemma run_app l1 l2 g : run (l1 ++ l2) g = run l2 (run l1 g).
Proof. unfold run. apply fold_left_app. Qed.

Lemma update_counts g c c' :
  from_meter c = true ->
  dayUsageStr (update_call (update_call g c) c') =
  day_text (dayUsage (update_call (update_call g c) c')).
Proof.
  intros Hc.
  assert (nonneg (lastDelivered (update_call g c))) as Hn.
  { unfold from_meter in Hc.
    apply andb_true_iff in Hc as [Hc _]. apply andb_true_iff in Hc as [Hc _].
    apply andb_true_iff in Hc as [H1 H2].
    cbn [update_call updateUsage lastDelivered].
    apply SignFacts.add_nonneg; now apply UsageFacts.register_value_nonneg. }
  apply SignFacts.nonneg_geb in Hn.
  generalize dependent (update_call g c). intros g1 Hn.
  unfold update_call, updateUsage.
  cbn [dayUsageStr dayUsage]. rewrite Hn. reflexivity.
Qed.

End SyncFacts.

(** X8. Once a call on meter registers has been made, every later call
    leaves the day text in step with the day total: the text is the
    rendering of the total the call has just computed, and is
    determined exactly when that rendering fits [outstr]. *)
Theorem day_text_in_step (cl : WiFiClient) (calls : list call) (c c' : call) :
  from_meter c = true ->
  dayUsageStr (run (calls ++ [c; c']) (initial cl)) =
  day_text (dayUsage (run (calls ++ [c; c']) (initial cl))).
Proof.
  intros Hc. rewrite SyncFacts.run_app. cbn [run fold_left].
  now apply SyncFacts.update_counts.
Qed.

Lemma day_text_in_step_witness :
  dayUsageStr (run ([] ++ [call_a; call_b]) (initial nobody)) = Some "1.0kW".
Proof.
  rewrite (day_text_in_step nobody [] call_a call_b eq_refl). reflexivity.
Defined.

Module RepeatFacts.

Lemma sub_self x : B32.is_finite x = true -> B32.sub x x = S754_zero false.
Proof.
  destruct x as [s|s| |s m e]; try discriminate; intros _.
  - destruct s; reflexivity.
  - cbn [B32.sub SFsub]. rewrite Z.sub_diag. reflexivity.
Qed.

Lemma add_zero x :
  B32.add x (S754_zero false) = x \/
  (x = S754_zero true /\ B32.add x (S754_zero false) = S754_zero false).
Proof.
  destruct x as [[|]|s| |s m e]; cbn; auto.
Qed.

End RepeatFacts.

(** X9. A reading that repeats the previous one, with finite register
    sums, leaves the day total as it was (a total of -0 becomes +0). *)
Theorem repeated_reading (ts : string) (d1 d2 r1 r2 : float) (g : globals) :
  B32.is_finite (B32.add d1 d2) = true ->
  B32.is_finite (B32.add r1 r2) = true ->
  let g1 := updateUsage ts d1 d2 r1 r2 g in
  let g2 := updateUsage ts d1 d2 r1 r2 g1 in
  dayUsage g2 = dayUsage g1 \/
  (dayUsage g1 = S754_zero true /\ dayUsage g2 = S754_zero false).
Proof.
  intros Hd Hr g1 g2.
  assert (lastTimestamp g1 = substring 0 6 ts) as Ek
    by apply KeyFacts.lastTimestamp_update.
  assert (lastDelivered g1 = B32.add d1 d2) as Ed by reflexivity.
  assert (lastReturned g1 = B32.add r1 r2) as Er by reflexivity.
  unfold g2. clearbody g1. clear g2.
  unfold updateUsage. cbn [dayUsage].
  rewrite Ek, Ed, Er. unfold equals. rewrite String.eqb_refl. cbn [negb].
  destruct (B32.geb (B32.add d1 d2) (B32.of_Z 0)); [|left; reflexivity].
  rewrite !RepeatFacts.sub_self by assumption.
  change (B32.sub (S754_zero false) (S754_zero false)) with (S754_zero false).
  apply RepeatFacts.add_zero.
Qed.

Lemma repeated_reading_witness :
  dayUsage (run [call_a; call_b; call_b] (initial nobody)) =
  dayUsage (run [call_a; call_b] (initial nobody)).
Proof.
  destruct (repeated_reading (timestamp call_b) (del1 call_b) (del2 call_b)
              (ret1 call_b) (ret2 call_b) (run [call_a] (initial nobody))
              eq_refl eq_refl) as [H|[H _]].
  - exact H.
  - vm_compute in H. discriminate.
Defined.

(** X10. For every float other than NaN the dial text is red exactly when
    the power is at least 0 (so for -0 too) and green otherwise; NaN shows
    red. *)
Theorem dial_color_sign :
  (forall x : float, x <> S754_nan ->
     (dial_color x = TFT_RED <-> B32.geb x (B32.of_Z 0) = true) /\
     (dial_color x = TFT_GREEN <-> B32.geb x (B32.of_Z 0) = false)) /\
  dial_color S754_nan = TFT_RED.
Proof.
  split; [|reflexivity]. intros x Nx.
  destruct x as [[|]|[|]| |[|] m e]; try congruence; cbn;
    split; split; intros H; try reflexivity; discriminate.
Qed.

Lemma dial_color_sign_witness :
  dial_color (S754_zero true) = TFT_RED.
Proof.
  apply (proj1 dial_color_sign (S754_zero true)); [discriminate|reflexivity].
Defined.

(** X11. Relaying a telegram and updating the usage do not depend on each
    other: in either order they give the same state. *)
Theorem relay_update_commute
  (raw ts : string) (d1 d2 r1 r2 : float) (g : globals) :
  sendTelegram raw (updateUsage ts d1 d2 r1 r2 g) =
  updateUsage ts d1 d2 r1 r2 (sendTelegram raw g).
Proof.
  unfold sendTelegram. cbn [RemoteClient updateUsage].
  destruct (connected (RemoteClient g)); reflexivity.
Qed.

(** X12. Every text that [setCurrentValue] stores has exactly 5
    characters, so that [drawScreen] puts the cursor at 85: its other
    branch, 77, is taken for no text that [setCurrentValue] determines. *)
Theorem stored_text_length (x : float) (g g' : globals) (t : string) :
  setCurrentValue x g = Some g' ->
  currentUsageStr g' = Some t ->
  String.length t = 5%nat /\ drawScreen_cursor_x g' = Some 85.
Proof.
  intros H Ht. unfold setCurrentValue in H.
  destruct (dial_angle x) as [a|]; [|discriminate].
  injection H as <-. unfold drawScreen_cursor_x. cbn [currentUsageStr] in *.
  assert (String.length t = 5%nat) as E.
  { unfold dial_text in Ht.
    pose proof (PadFacts.dtostrf_length
                  (B32.fabs (B32.div (B32.round (B32.mul x (B32.of_Z 10)))
                                     (B32.of_Z 10)))
                  (if B32.geb x (B32.of_Z 10) then 4 else 3)) as L.
    revert Ht L. generalize (dtostrf
                  (B32.fabs (B32.div (B32.round (B32.mul x (B32.of_Z 10)))
                                     (B32.of_Z 10)))
                  (if B32.geb x (B32.of_Z 10) then 4 else 3) 1).
    intros s Ht L. unfold outstr in Ht.
    destruct (Nat.leb_spec (String.length s) 3) as [U|U]; [|discriminate].
    injection Ht as <-. rewrite length_append. cbn [String.length]. lia. }
  rewrite Ht, E. split; reflexivity.
Qed.

Lemma stored_text_length_witness :
  exists g',
    setCurrentValue (B32.of_ratio (-7) 2) (initial nobody) = Some g' /\
    currentUsageStr g' = Some "3.5kW" /\ drawScreen_cursor_x g' = Some 85.
Proof.
  destruct (setCurrentValue (B32.of_ratio (-7) 2) (initial nobody))
    as [g'|] eqn:E.
  - exists g'. split; [reflexivity|].
    assert (currentUsageStr g' = Some "3.5kW") as Ht
      by (vm_compute in E; injection E as <-; reflexivity).
    split; [exact Ht|].
    exact (proj2 (stored_text_length _ _ g' "3.5kW" E Ht)).
  - vm_compute in E. discriminate E.
Defined.

Module LoopFacts.

Lemma setCurrentValue_keeps x g g' :
  setCurrentValue x g = Some g' ->
  RemoteClient g' = RemoteClient g /\ same_usage g' g /\ lastBuf g' = lastBuf g.
Proof.
  unfold setCurrentValue. destruct (dial_angle x); [|discriminate].
  intros [= <-]. repeat split.
Qed.

Lemma sendTelegram_keeps raw g : same_usage (sendTelegram raw g) g.
Proof.
  unfold sendTelegram. destruct (connected (RemoteClient g)); repeat split.
Qed.

Lemma updateUsage_same ts d1 d2 r1 r2 g h :
  same_usage g h ->
  same_usage (updateUsage ts d1 d2 r1 r2 g) (updateUsage ts d1 d2 r1 r2 h).
Proof.
  intros (H1 & H2 & H3 & H4 & H5). unfold same_usage, updateUsage.
  cbn [lastTimestamp dayUsage lastDelivered lastReturned dayUsageStr].
  rewrite H1, H2, H3, H4, H5. repeat split.
Qed.

Lemma same_usage_trans g h k : same_usage g h -> same_usage h k -> same_usage g k.
Proof.
  intros (A1 & A2 & A3 & A4 & A5) (B1 & B2 & B3 & B4 & B5).
  repeat split; congruence.
Qed.




Lemma calls_of_cons p ps :
  calls_of (p :: ps) = (calls_of [p] ++ calls_of ps)%list.
Proof. unfold calls_of. cbn [flat_map]. now rewrite app_nil_r. Qed.


Lemma loop_usage p g g' h :
  loop p g = Some g' -> same_usage g h ->
  same_usage g' (run (calls_of [p]) h).
Proof.
  unfold loop, calls_of. cbn [flat_map].
  assert (same_usage (checkForConnections (waiting p) g) g) as H0
    by (destruct (waiting p); repeat split).
  revert H0. generalize (checkForConnections (waiting p) g). intros g0 H0.
  destruct (telegram p) as [[raw [d|]]|]; cbn [app run fold_left].
  - intros H Hgh. apply setCurrentValue_keeps in H as (_ & H & _).
    apply (same_usage_trans _ _ _ H). unfold update_call, call_of.
    cbn [timestamp del1 del2 ret1 ret2]. apply updateUsage_same.
    apply (same_usage_trans _ _ _ (sendTelegram_keeps _ _)).
    apply (same_usage_trans _ g0); [repeat split|].
    now apply (same_usage_trans _ g).
  - intros [= <-] Hgh. apply (same_usage_trans _ g0); [repeat split|].
    now apply (same_usage_trans _ g).
  - intros [= <-] Hgh. now apply (same_usage_trans _ g).
Qed.

Lemma loops_usage_from ps g g' h :
  loops ps g = Some g' -> same_usage g h ->
  same_usage g' (run (calls_of ps) h).
Proof.
  revert g h. induction ps as [|p ps IH]; intros g h H Hg.
  - cbn in H. injection H as <-. exact Hg.
  - cbn [loops] in H. destruct (loop p g) as [g1|] eqn:E; [|discriminate].
    rewrite (calls_of_cons p ps), SyncFacts.run_app.
    apply (IH g1); [exact H|]. now apply (loop_usage p g g1 h).
Qed.

End LoopFacts.



(** X14. The day accounting of [loop] is that of [updateUsage] called on
    the telegrams that parsed, in order: relaying, new connections, the
    dial and telegrams that did not parse leave it alone. *)
Theorem loops_usage (ps : list pass) (g g' : globals) :
  loops ps g = Some g' -> same_usage g' (run (calls_of ps) g).
Proof.
  intros H. apply (LoopFacts.loops_usage_from ps g g' g H). repeat split.
Qed.

Lemma loops_usage_witness :
  exists g', loops passes_ab (initial somebody) = Some g' /\
             dayUsageStr g' = Some "1.0kW".
Proof.
  destruct (loops passes_ab (initial somebody)) as [g'|] eqn:E.
  - exists g'. split; [reflexivity|].
    destruct (loops_usage passes_ab (initial somebody) g' E)
      as (_ & _ & _ & _ & H).
    rewrite H. vm_compute. reflexivity.
  - vm_compute in E. discriminate E.
Defined.



Module SubFacts.
Local Open Scope R_scope.

Lemma sub_finite_spec sx mx ex sy my ey :
  let x := S754_finite sx mx ex in
  let y := S754_finite sy my ey in
  ok (SFsub B32.prec B32.emax x y) /\
  SRounds (XV x - XV y) (XV (SFsub B32.prec B32.emax x y)).
Proof.
  intros x y. cbn [SFsub x y].
  match goal with |- ok (binary_normalize _ _ ?z ?e _) /\ _ =>
    replace (XV x - XV y) with (IZR z * bpow e) end.
  - apply binary_normalize_spec.
  - rewrite minus_IZR, !IZR_cond_Zopp. cbn [XV x y].
    rewrite Rmult_minus_distr_r, !Rmult_assoc.
    rewrite !shl_align_fst by lia. reflexivity.
Qed.

Lemma XV_4363 : XV (S754_finite false 8935424 (-11)) = 4363.
Proof. HalfFacts.xv. Qed.

(** The difference of two meter values of at most 4363 lies within 4363
    of 0. *)
Lemma sub_in_range x y :
  register_value x = true -> register_value y = true ->
  B32.leb x (B32.of_Z 4363) = true -> B32.leb y (B32.of_Z 4363) = true ->
  ord (B32.of_Z (-4363)) (B32.sub x y) /\ ord (B32.sub x y) (B32.of_Z 4363).
Proof.
  intros Rx Ry Hx Hy.
  assert (B32.is_float x = true /\ B32.is_float y = true) as [Vx Vy].
  { unfold register_value in Rx, Ry.
    apply andb_true_iff in Rx as [Rx _]. apply andb_true_iff in Ry as [Ry _].
    auto. }
  apply (leb_XV x (B32.of_Z 4363) Vx eq_refl) in Hx as (Ox & O1 & Hx).
  apply (leb_XV y (B32.of_Z 4363) Vy eq_refl) in Hy as (Oy & _ & Hy).
  change (B32.of_Z 4363) with (S754_finite false 8935424 (-11)) in *.
  change (B32.of_Z (-4363)) with (S754_finite true 8935424 (-11)).
  assert (ok (S754_finite true 8935424 (-11))) as O2
    by (split; [reflexivity|discriminate]).
  assert (XV (S754_finite true 8935424 (-11)) = -4363) as E2.
  { pose proof XV_4363 as K. cbn [XV] in *. unfold sgn in *. lra. }
  pose proof (valid_SRounds false 8935424 (-11) eq_refl) as S1.
  pose proof (valid_SRounds true 8935424 (-11) eq_refl) as S2.
  rewrite XV_4363 in *. rewrite E2 in *.
  assert (0 <= XV x /\ 0 <= XV y) as [Px Py].
  { apply UsageFacts.register_value_nonneg in Rx, Ry.
    split; [destruct x as [s|[|]| |[|] m e]|destruct y as [s|[|]| |[|] m e]];
      cbn [nonneg] in *; try contradiction; cbn [XV];
      try lra; try (pose proof (bpow_pos 128); unfold sgn; lra);
      apply Rlt_le, finite_pos. }
  assert (ok (B32.sub x y) /\ SRounds (XV x - XV y) (XV (B32.sub x y)))
    as [Os Ss].
  { unfold register_value in Rx, Ry.
    apply andb_true_iff in Rx as [_ Rx]. apply andb_true_iff in Ry as [_ Ry].
    destruct x as [[|]|sx| |[|] mx ex]; try discriminate;
      destruct y as [[|]|sy| |[|] my ey]; try discriminate.
    - split; [split; [reflexivity|discriminate]|]. cbn [XV B32.sub SFsub].
      rewrite Rminus_0_r. apply SRounds_zero.
    - change (B32.sub (S754_zero false) (S754_finite false my ey))
        with (S754_finite true my ey).
      split; [split; [exact Vy|discriminate]|].
      cbn [XV]. rewrite Rminus_0_l.
      replace (- (sgn false * (IZR (Z.pos my) * bpow ey)))
        with (XV (S754_finite true my ey)) by (cbn [XV]; unfold sgn; ring).
      apply valid_SRounds. exact Vy.
    - change (B32.sub (S754_finite false mx ex) (S754_zero false))
        with (S754_finite false mx ex).
      split; [exact Ox|]. change (XV (S754_zero false)) with 0.
      rewrite Rminus_0_r. apply valid_SRounds. exact Vx.
    - apply sub_finite_spec. }
  split; (split; [assumption|split; [assumption|]]).
  - rewrite E2. apply (SRounds_mono _ _ _ _ S2 Ss). lra.
  - rewrite XV_4363. apply (SRounds_mono _ _ _ _ Ss S1). lra.
Qed.

End SubFacts.

(** X16. For a parsed telegram whose two powers are meter values of at
    most 4363 kW each, the net power that [loop] hands to
    [setCurrentValue] has an angle that fits [int16_t]. *)
Theorem net_power_angle_defined (d : MyData.t) :
  power_in_range d = true ->
  exists a,
    dial_angle
      (B32.sub (MyData.power_delivered d) (MyData.power_returned d)) = Some a /\
    -32767 <= a <= 32677.
Proof.
  intros H. unfold power_in_range in H.
  apply andb_true_iff in H as [H H4]. apply andb_true_iff in H as [H H3].
  apply andb_true_iff in H as [H1 H2].
  destruct (SubFacts.sub_in_range _ _ H1 H2 H3 H4) as [Lo Hi].
  exact (DialFacts.dial_angle_between _ _ _ (-32767) 32677 Lo Hi
           eq_refl eq_refl).
Qed.

Lemma net_power_angle_defined_witness :
  exists a,
    dial_angle
      (B32.sub (MyData.power_delivered data_b) (MyData.power_returned data_b))
    = Some a /\
    -32767 <= a <= 32677.
Proof. apply (net_power_angle_defined data_b). reflexivity. Defined.
